(** * ansi-js-logger: the text-formatting engine of [src/index.js]

    A shallow embedding of the formatting core (colour resolution, the
    inline command parser and the object-driven formatter) together with
    the properties its design document states about it.

    Conventions of the embedding.
    - A JavaScript string is a [string]: a sequence of 8-bit characters,
      read as the UTF-16 code units U+0000..U+00FF.
    - A JavaScript number is an integer of [Z], [NaN] or an infinity.  A
      number holds every integer below 2^53; what [parseInt] reads is
      rounded to the nearest number from there on, and is an infinity
      when that is 2^1024 or more.  Numbers print in decimal digits, as
      the language prints the integers below 2^53; the codes and counters
      that the code prints are far smaller.
    - A call either returns or throws: [completion]. *)

From Stdlib Require Import ZArith List String Ascii Bool Lia.
From Stdlib Require Import Numbers.DecimalString.
Import ListNotations.

Local Open Scope string_scope.
Local Open Scope Z_scope.

(** ** Completions: a call returns a value or throws *)

Inductive js_error : Type :=
| TypeError.

Inductive completion (A : Type) : Type :=
| Normal (a : A)
| Throw (e : js_error).

Arguments Normal {A} a.
Arguments Throw {A} e.

Definition bind {A B : Type} (c : completion A) (k : A -> completion B)
  : completion B :=
  match c with
  | Normal a => k a
  | Throw e => Throw e
  end.

Notation "x <- c ;; k" := (bind c (fun x => k))
  (at level 61, c at next level, right associativity).

(** [Array.prototype.forEach] over a callback that updates a state and may
    throw: the first exception ends the loop. *)
Fixpoint forEach {S A : Type} (f : S -> A -> completion S) (l : list A) (st : S)
  : completion S :=
  match l with
  | [] => Normal st
  | a :: l' => st' <- f st a ;; forEach f l' st'
  end.

(** ** JavaScript values that reach the formatter *)

(** A number: an integer, NaN, or an infinity with its sign. *)
Inductive num : Type :=
| NaN
| Int (z : Z)
| Inf (negative : bool).

(** An element of the code arrays [args], [ends] and [styles]. *)
Inductive jsval : Type :=
| VUndef
| VStr (s : string)
| VNum (z : Z).

(** ** String primitives *)

Module Str.

Definition code (c : ascii) : nat := nat_of_ascii c.

Definition is_digit (c : ascii) : bool :=
  (Nat.leb 48 (code c) && Nat.leb (code c) 57)%bool.

(** [String.prototype.toLowerCase] on U+0000..U+00FF: A-Z and the accented
    capitals U+00C0..U+00DE (without the multiplication sign U+00D7). *)
Definition lower_char (c : ascii) : ascii :=
  let n := code c in
  if (Nat.leb 65 n && Nat.leb n 90)%bool then ascii_of_nat (n + 32)
  else if (Nat.leb 192 n && Nat.leb n 222 && negb (Nat.eqb n 215))%bool
       then ascii_of_nat (n + 32)
  else c.

Fixpoint toLowerCase (s : string) : string :=
  match s with
  | EmptyString => EmptyString
  | String c r => String (lower_char c) (toLowerCase r)
  end.

(** [s.startsWith(p)] *)
Definition startsWith (s p : string) : bool := String.prefix p s.

(** [s.includes(p)] *)
Fixpoint includes (s p : string) : bool :=
  (String.prefix p s
   || match s with
      | EmptyString => false
      | String _ r => includes r p
      end)%bool.

(** [s.endsWith(p)] *)
Fixpoint endsWith (s p : string) : bool :=
  (String.eqb s p
   || match s with
      | EmptyString => false
      | String _ r => endsWith r p
      end)%bool.

(** [s.substring(n)] for [n] within the string. *)
Fixpoint drop (n : nat) (s : string) : string :=
  match n, s with
  | O, _ => s
  | S k, EmptyString => EmptyString
  | S k, String _ r => drop k r
  end.

Definition snoc (s : string) (c : ascii) : string := s ++ String c EmptyString.

(** [s.split("")]: the characters, one string each. *)
Fixpoint chars (s : string) : list string :=
  match s with
  | EmptyString => []
  | String c r => String c EmptyString :: chars r
  end.

(** [s.split(sep)] for a non-empty string [sep]: the pieces between the
    occurrences of [sep], found left to right without overlap.  [skip]
    counts the characters of a separator still to pass, [cur] is the piece
    being collected. *)
Fixpoint split_go (sep : string) (skip : nat) (cur s : string) : list string :=
  match s with
  | EmptyString => [cur]
  | String c r =>
      match skip with
      | S k => split_go sep k cur r
      | O =>
          if String.prefix sep s
          then cur :: split_go sep (String.length sep - 1) EmptyString r
          else split_go sep O (snoc cur c) r
      end
  end.

Definition split (s sep : string) : list string :=
  split_go sep O EmptyString s.

(** [GetSubstitution] of the language: the [$]-patterns of a replacement
    string, for a string pattern (no capture groups, so [$1], [$<] and the
    like stay as they are). *)
Fixpoint getSubstitution (matched before after template : string) : string :=
  match template with
  | EmptyString => EmptyString
  | String c r =>
      if Ascii.eqb c "$" then
        match r with
        | EmptyString => String c EmptyString
        | String d r' =>
            if Ascii.eqb d "$" then
              String "$" (getSubstitution matched before after r')
            else if Ascii.eqb d "&" then
              matched ++ getSubstitution matched before after r'
            else if Ascii.eqb d "`" then
              before ++ getSubstitution matched before after r'
            else if Ascii.eqb d "'" then
              after ++ getSubstitution matched before after r'
            else String c (getSubstitution matched before after r)
        end
      else String c (getSubstitution matched before after r)
  end.

(** [s.replaceAll(pat, rep)] for a non-empty string [pat]; [before] is the
    part of the subject already passed. *)
Fixpoint replaceAll_go (pat rep : string) (skip : nat) (before s : string)
  : string :=
  match s with
  | EmptyString => EmptyString
  | String c r =>
      match skip with
      | S k => replaceAll_go pat rep k (snoc before c) r
      | O =>
          if String.prefix pat s
          then getSubstitution pat before (drop (String.length pat) s) rep
               ++ replaceAll_go pat rep (String.length pat - 1) (snoc before c) r
          else String c (replaceAll_go pat rep O (snoc before c) r)
      end
  end.

Definition replaceAll (s pat rep : string) : string :=
  replaceAll_go pat rep O EmptyString s.

(** [s.replace(pat, "")] for a string [pat]: the first occurrence goes. *)
Fixpoint remove_first (s pat : string) : string :=
  if String.prefix pat s then drop (String.length pat) s
  else match s with
       | EmptyString => EmptyString
       | String c r => String c (remove_first r pat)
       end.

(** [s.replace(/^#/, "")] *)
Definition strip_hash (s : string) : string :=
  match s with
  | String "#" r => r
  | _ => s
  end.

(** [s.replace(/m$/, "")] *)
Fixpoint strip_final_m (s : string) : string :=
  match s with
  | EmptyString => EmptyString
  | String c r =>
      match r with
      | EmptyString => if Ascii.eqb c "m" then EmptyString else s
      | String _ _ => String c (strip_final_m r)
      end
  end.

(** [s.replace(/(bg_|\+)/gi, "")]: every [bg_] (in any case) and every
    [+] goes, scanning left to right. *)
Fixpoint remove_bg_plus (skip : nat) (s : string) : string :=
  match s with
  | EmptyString => EmptyString
  | String c r =>
      match skip with
      | S k => remove_bg_plus k r
      | O =>
          if String.prefix "bg_" (toLowerCase s) then remove_bg_plus 2 r
          else if Ascii.eqb c "+" then remove_bg_plus O r
          else String c (remove_bg_plus O r)
      end
  end.

(** [array.join(sep)] on strings. *)
Definition join (sep : string) (l : list string) : string :=
  String.concat sep l.

(** [array.join("")] *)
Definition join_empty (l : list string) : string := String.concat "" l.

End Str.

(** ** Numbers *)

Module Num.

(** Decimal text of an integer, as [String(n)] gives it. *)
Definition toString (z : Z) : string :=
  NilZero.string_of_int (Z.to_int z).

Definition num_toString (n : num) : string :=
  match n with
  | NaN => "NaN"
  | Int z => toString z
  | Inf negative => if negative then "-Infinity" else "Infinity"
  end.

(** White space that [parseInt] and [Number] skip, within U+0000..U+00FF. *)
Definition is_space (c : ascii) : bool :=
  let n := Str.code c in
  (Nat.leb 9 n && Nat.leb n 13 || Nat.eqb n 32 || Nat.eqb n 160)%bool.

Fixpoint trimStart (s : string) : string :=
  match s with
  | EmptyString => EmptyString
  | String c r => if is_space c then trimStart r else s
  end.

(** Value of a character as a digit in the given radix (10 or 16). *)
Definition digit_value (radix : Z) (c : ascii) : option Z :=
  let n := Z.of_nat (Str.code c) in
  let v :=
    if (48 <=? n) && (n <=? 57) then Some (n - 48)
    else if (97 <=? n) && (n <=? 102) then Some (n - 87)
    else if (65 <=? n) && (n <=? 70) then Some (n - 55)
    else None in
  match v with
  | Some d => if d <? radix then Some d else None
  | None => None
  end.

(** The longest prefix of digits, as the integer it writes; [acc] is
    [None] until a digit has been read. *)
Fixpoint parse_digits (radix : Z) (acc : option Z) (s : string) : option Z :=
  match s with
  | EmptyString => acc
  | String c r =>
      match digit_value radix c with
      | Some d =>
          parse_digits radix
            (Some (match acc with None => d | Some a => a * radix + d end)) r
      | None => acc
      end
  end.

(** The number nearest to the integer [v >= 0]: [v] itself below 2^53;
    from there on [v] is cut to its 53 leading bits [q], the bits cut off
    rounding [q] to the nearest, and to the even one at a tie. *)
Definition round_double (v : Z) : Z :=
  if v <? 2 ^ 53 then v
  else
    let e := Z.log2 v - 52 in
    let q := v / 2 ^ e in
    let r := v mod 2 ^ e in
    let half := 2 ^ (e - 1) in
    let q' :=
      if ((half <? r) || ((r =? half) && Z.odd q))%bool then q + 1 else q in
    q' * 2 ^ e.

(** The number of an integer [v >= 0] read with a sign: the nearest
    number, an infinity when that is 2^1024 or more. *)
Definition to_number (negative : bool) (v : Z) : num :=
  let r := round_double v in
  if r <? 2 ^ 1024 then Int (if negative then - r else r) else Inf negative.

Definition strip_0x (s : string) : string :=
  match s with
  | String "0" (String c r) =>
      if (Ascii.eqb c "x" || Ascii.eqb c "X")%bool then r else s
  | _ => s
  end.

(** A leading sign: whether it is [-], and the rest. *)
Definition split_sign (s : string) : bool * string :=
  match s with
  | String c r =>
      if Ascii.eqb c "-" then (true, r)
      else if Ascii.eqb c "+" then (false, r)
      else (false, s)
  | EmptyString => (false, s)
  end.

(** [parseInt(s, radix)] for radix 10 or 16: the integer that the digits
    write, as a number.  (The language lets an implementation read the
    decimal digits after the twentieth as zeros; the nearest number is
    what V8 gives.) *)
Definition parseInt (s : string) (radix : Z) : num :=
  let '(negative, s2) := split_sign (trimStart s) in
  let s3 := if radix =? 16 then strip_0x s2 else s2 in
  match parse_digits radix None s3 with
  | None => NaN
  | Some v => to_number negative v
  end.

(** The first digit of [String(a)] for a number [a > 0] of more than 21
    digits.  Such a number prints in the exponent form [d.ddde+N], with
    the fewest digits that read back as [a]: [d] is the first digit of
    [a], or the next one when that digit alone, followed by zeros, reads
    back as [a]. *)
Definition exponent_digit (a : Z) : Z :=
  let unit := 10 ^ (Z.of_nat (String.length (toString a)) - 1) in
  let d := a / unit in
  if round_double ((d + 1) * unit) =? a
  then (if d =? 9 then 1 else d + 1)
  else d.

(** [parseInt(n, 10)] of a number [n]: the number is printed, then read.
    [String(n)] is the decimal digits of an integer of at most 21 digits;
    of the exponent form of a longer one [parseInt] reads the sign and the
    first digit. *)
Definition parseInt_num (n : num) : num :=
  match n with
  | Int z =>
      if (String.length (toString (Z.abs z)) <=? 21)%nat
      then parseInt (toString z) 10
      else Int (Z.sgn z * exponent_digit (Z.abs z))
  | _ => parseInt (num_toString n) 10
  end.

End Num.

(** ** [Number(s)]: the sign of the number a string converts to *)

Module ToNumber.

Inductive sign_class : Type :=
| IsNaN
| Negative
| Zero
| Positive.

Fixpoint span (p : ascii -> bool) (s : string) : string * string :=
  match s with
  | EmptyString => (EmptyString, EmptyString)
  | String c r =>
      if p c then let '(a, b) := span p r in (String c a, b)
      else (EmptyString, s)
  end.

Fixpoint trimEnd (s : string) : string :=
  match s with
  | EmptyString => EmptyString
  | String c r =>
      match trimEnd r with
      | EmptyString => if Num.is_space c then EmptyString else String c EmptyString
      | r' => String c r'
      end
  end.

Definition trim (s : string) : string := trimEnd (Num.trimStart s).

Definition digits_value (radix : Z) (s : string) : Z :=
  match Num.parse_digits radix None s with
  | None => 0
  | Some v => v
  end.

Definition is_empty (s : string) : bool :=
  match s with
  | EmptyString => true
  | String _ _ => false
  end.

Definition is_radix_digit (radix : Z) (c : ascii) : bool :=
  match Num.digit_value 16 c with
  | Some d => d <? radix
  | None => false
  end.

(** The literals [0x..], [0o..] and [0b..]: [Some true] when the value is
    not zero, [Some false] when it is zero, [None] when [s] is no such
    literal. *)
Definition non_decimal (s : string) : option (option bool) :=
  match s with
  | String z (String c r) =>
      let radix :=
        if negb (Ascii.eqb z "0") then None
        else if (Ascii.eqb c "x" || Ascii.eqb c "X")%bool then Some 16
        else if (Ascii.eqb c "o" || Ascii.eqb c "O")%bool then Some 8
        else if (Ascii.eqb c "b" || Ascii.eqb c "B")%bool then Some 2
        else None in
      match radix with
      | Some b =>
          let '(ds, rest) := span (is_radix_digit b) r in
          if (is_empty ds || negb (is_empty rest))%bool then Some None
          else Some (Some (negb (digits_value 16 ds =? 0)))
      | None => None
      end
  | _ => None
  end.

(** A fraction: the digits after a leading point, and the rest. *)
Definition fraction (s : string) : string * string :=
  match s with
  | String c r => if Ascii.eqb c "." then span Str.is_digit r else (EmptyString, s)
  | EmptyString => (EmptyString, s)
  end.

(** A positive decimal [m * 10^k] converts to [0] when it is at most half
    the least positive number, 2^(-1075). *)
Definition underflows (m k : Z) : bool :=
  if k <? 0 then m * 2 ^ 1075 <=? 10 ^ (- k) else false.

(** An unsigned decimal literal: [Infinity], or digits with an optional
    fraction and exponent.  [Some true]: not zero; [Some false]: zero;
    [None]: not a literal. *)
Definition unsigned_decimal (s : string) : option bool :=
  if String.eqb s "Infinity" then Some true
  else
    let '(ip, r1) := span Str.is_digit s in
    let '(fp, r2) := fraction r1 in
    if (is_empty ip && is_empty fp)%bool then None
    else
      let exponent : option Z :=
        match r2 with
        | EmptyString => Some 0
        | String c r =>
            if (Ascii.eqb c "e" || Ascii.eqb c "E")%bool then
              let '(negative, r') := Num.split_sign r in
              let '(ed, rest) := span Str.is_digit r' in
              if (is_empty ed || negb (is_empty rest))%bool then None
              else Some ((if negative then -1 else 1) * digits_value 10 ed)
            else None
        end in
      match exponent with
      | None => None
      | Some e =>
          let m := digits_value 10 (ip ++ fp) in
          let k := e - Z.of_nat (String.length fp) in
          Some (negb (m =? 0) && negb (underflows m k))%bool
      end.

(** The sign of [Number(s)]. *)
Definition classify (s : string) : sign_class :=
  let t := trim s in
  if is_empty t then Zero
  else
    match non_decimal t with
    | Some None => IsNaN
    | Some (Some nz) => if nz then Positive else Zero
    | None =>
        let '(negative, body) := Num.split_sign t in
        match unsigned_decimal body with
        | None => IsNaN
        | Some false => Zero
        | Some true => if negative then Negative else Positive
        end
    end.

(** [isNaN(+s)] *)
Definition isNaN (s : string) : bool :=
  match classify s with
  | IsNaN => true
  | _ => false
  end.

End ToNumber.

(** ** Escape sequence constants *)

Definition ESC : ascii := "027"%char.

Definition prefix : string := String ESC "[".
Definition postfix : string := "m".
Definition reset : string := prefix ++ "0" ++ postfix.

(** ** Tables *)

Record style_codes : Type := { on : Z; off : Z }.

Definition STYLES : list (string * style_codes) :=
  [ ("bold", {| on := 1; off := 22 |});
    ("dim", {| on := 2; off := 22 |});
    ("italic", {| on := 3; off := 23 |});
    ("cursive", {| on := 3; off := 23 |});
    ("underline", {| on := 4; off := 24 |});
    ("blink", {| on := 5; off := 25 |});
    ("inverse", {| on := 7; off := 27 |});
    ("hidden", {| on := 8; off := 28 |});
    ("strikethrough", {| on := 9; off := 29 |}) ].

Definition COLORS : list (string * Z) :=
  [ ("black", 30); ("red", 31); ("green", 32); ("yellow", 33);
    ("blue", 34); ("magenta", 35); ("cyan", 36); ("white", 37);
    ("reset", 0) ].

Definition INDEX_down : Z := 73.
Definition INDEX_up : Z := 74.
Definition INDEX_off : Z := 75.

(** Reading [obj[key]] on an object literal: an own property, a property
    every object inherits (a function or object without [on] and [off]), or
    nothing ([undefined]). *)
Inductive property (A : Type) : Type :=
| Own (a : A)
| Inherited
| Absent.

Arguments Own {A} a.
Arguments Inherited {A}.
Arguments Absent {A}.

Definition object_prototype_keys : list string :=
  [ "constructor"; "__defineGetter__"; "__defineSetter__"; "hasOwnProperty";
    "__lookupGetter__"; "__lookupSetter__"; "isPrototypeOf";
    "propertyIsEnumerable"; "toString"; "valueOf"; "__proto__";
    "toLocaleString" ].

Fixpoint assoc {A : Type} (k : string) (l : list (string * A)) : option A :=
  match l with
  | [] => None
  | (k', v) :: l' => if String.eqb k' k then Some v else assoc k l'
  end.

Definition mem (k : string) (l : list string) : bool :=
  existsb (String.eqb k) l.

(** [STYLES[name]] *)
Definition STYLES_get (name : string) : property style_codes :=
  match assoc name STYLES with
  | Some c => Own c
  | None => if mem name object_prototype_keys then Inherited else Absent
  end.

(** How [join] and template strings print an element. *)
Definition jsval_toString (v : jsval) : string :=
  match v with
  | VUndef => EmptyString
  | VStr s => s
  | VNum z => Num.toString z
  end.

Definition join_vals (sep : string) (l : list jsval) : string :=
  Str.join sep (map jsval_toString l).

Definition join_nums (sep : string) (l : list Z) : string :=
  Str.join sep (map Num.toString l).

(** [join] of an array of numbers. *)
Definition join_numbers (sep : string) (l : list num) : string :=
  Str.join sep (map Num.num_toString l).

(** ** Colour resolution *)

(** The argument of [parseRGB]: a string or an array of numbers. *)
Inductive rgb_input : Type :=
| RgbString (s : string)
| RgbArray (l : list num).

(** [inputStr.match(/\d*/gi)]: at every position the longest run of digits,
    possibly empty; after an empty match the scan moves one character on,
    and the end of the string gives one last empty match.  [cur] is the run
    being read. *)
Fixpoint match_digit_runs (cur s : string) : list string :=
  match s with
  | EmptyString =>
      if ToNumber.is_empty cur then [EmptyString] else [cur; EmptyString]
  | String c r =>
      if Str.is_digit c then match_digit_runs (Str.snoc cur c) r
      else if ToNumber.is_empty cur then EmptyString :: match_digit_runs EmptyString r
      else cur :: EmptyString :: match_digit_runs EmptyString r
  end.

(** [isNaN(n) ? 0 : n % 256]; the remainder has the sign of [n], and an
    infinity has no remainder. *)
Definition wrap256 (n : num) : num :=
  match n with
  | NaN => Int 0
  | Int z => Int (Z.rem z 256)
  | Inf _ => NaN
  end.

(** [parseRGB(input)]; [None] is [null]. *)
Definition parseRGB (input : rgb_input) : option (list num) :=
  match input with
  | RgbString EmptyString => None
  | RgbArray l =>
      Some (map (fun val => wrap256 (Num.parseInt_num val)) (firstn 3 l))
  | RgbString inputStr =>
      let matched := match_digit_runs EmptyString inputStr in
      Some (map wrap256
              (map (fun i => Num.parseInt i 10)
                 (firstn 3
                    (filter (fun i => negb (ToNumber.is_empty i)) matched))))
  end.

Definition char_at (s : string) (n : nat) : string :=
  match String.get n s with
  | Some c => String c EmptyString
  | None => EmptyString
  end.

(** [hexToRgb(hex)]; [None] is [null]. *)
Definition hexToRgb (hex : string) : option (list num) :=
  let hex := Str.strip_hash hex in
  match String.length hex with
  | 3%nat =>
      Some [ Num.parseInt (char_at hex 0 ++ char_at hex 0) 16;
             Num.parseInt (char_at hex 1 ++ char_at hex 1) 16;
             Num.parseInt (char_at hex 2 ++ char_at hex 2) 16 ]
  | 6%nat | 8%nat =>
      Some [ Num.parseInt (String.substring 0 2 hex) 16;
             Num.parseInt (String.substring 2 2 hex) 16;
             Num.parseInt (String.substring 4 2 hex) 16 ]
  | _ => None
  end.

(** The one-character string of a backslash. *)
Definition backslash : string := String "092"%char EmptyString.

Record color_options : Type := {
  bg : bool;
  contrast : bool;
  rgb : option (list num)
}.

(** [getColorFromText(code)]: the text code and the [rgb] option.  Reading
    [rgbArray.length] throws when [rgbArray] is [null]. *)
Definition getColorFromText (code : string)
  : completion (string * option (list num)) :=
  let hex := Str.startsWith code "#" in
  let lc := Str.toLowerCase code in
  let is_rgb :=
    (Str.includes lc "rgb" || Str.includes lc "." || Str.includes lc ","
     || Str.includes lc "-" || Str.includes lc "/" || Str.includes lc backslash
     || negb (ToNumber.isNaN code))%bool in
  let textCode := if (hex || is_rgb)%bool then EmptyString else code in
  let rgbArray : option (list num) :=
    if hex then hexToRgb code
    else if is_rgb then parseRGB (RgbString code)
    else Some [] in
  match rgbArray with
  | None => Throw TypeError
  | Some a => Normal (textCode, match a with [] => None | _ => Some a end)
  end.

(** [Object.keys(COLORS).find(p)], with the code [COLORS[key]] of the key
    found. *)
Definition find_key (p : string -> bool) : option (string * Z) :=
  find (fun entry => p (fst entry)) COLORS.

Definition is_some {A : Type} (o : option A) : bool :=
  match o with
  | Some _ => true
  | None => false
  end.

(** [getColor(text, options)]; [options = None] is [null]. *)
Definition getColor (text : string) (options : option color_options)
  : completion string :=
  let bg := match options with Some o => bg o | None => false end in
  let contrast := match options with Some o => contrast o | None => false end in
  let rgb := match options with Some o => rgb o | None => None end in
  if (negb (is_some rgb) && (String.length text <? 3)%nat)%bool
  then Normal EmptyString
  else
    let keyShifting :=
      (if bg then 10 else 0)
      + (if (contrast && negb (is_some rgb))%bool then 60 else 0) in
    match rgb with
    | Some arr =>
        match parseRGB (RgbArray arr) with
        | None => Throw TypeError
        | Some colors =>
            let args :=
              match colors with
              | [c] => [Int (38 + keyShifting); Int 5; c]
              | [c1; c2] => [Int (38 + keyShifting); Int 2; c1; c2; Int 0]
              | _ => Int (38 + keyShifting) :: Int 2 :: firstn 3 colors
              end in
            Normal (prefix ++ join_numbers ";" args ++ postfix)
        end
    | None =>
        let lc := Str.toLowerCase text in
        let key :=
          match find_key (fun i => String.eqb i lc) with
          | Some k => Some k
          | None => find_key (fun i => Str.includes lc i)
          end in
        match key with
        | None => Normal EmptyString
        | Some (_, color) =>
            Normal (prefix ++ Num.toString (color + keyShifting) ++ postfix)
        end
    end.

(** ** Index markers *)

(** The [reg] argument of [halving]: absent, a string or a number. *)
Inductive reg_value : Type :=
| RegUndef
| RegStr (s : string)
| RegNum (z : Z).

Definition down_aliases : list string :=
  [ "down"; "superscript"; "super"; "sup"; "under"; "bottom"; "lower" ].

Definition up_aliases : list string :=
  [ "up"; "subscript"; "sub"; "over"; "top"; "upper" ].

Definition reg_falsy (reg : reg_value) : bool :=
  match reg with
  | RegUndef => true
  | RegStr s => ToNumber.is_empty s
  | RegNum z => z =? 0
  end.

(** [`${reg}`] *)
Definition reg_text (reg : reg_value) : string :=
  match reg with
  | RegUndef => "undefined"
  | RegStr s => s
  | RegNum z => Num.toString z
  end.

(** The sign of [+reg]. *)
Definition reg_sign (reg : reg_value) : ToNumber.sign_class :=
  match reg with
  | RegUndef => ToNumber.IsNaN
  | RegStr s => ToNumber.classify s
  | RegNum z =>
      if z <? 0 then ToNumber.Negative
      else if z =? 0 then ToNumber.Zero else ToNumber.Positive
  end.

(** [style && style !== ""] *)
Definition style_truthy (v : jsval) : bool :=
  match v with
  | VUndef => false
  | VStr s => negb (ToNumber.is_empty s)
  | VNum z => negb (z =? 0)
  end.

(** [typeof style === "string" ? parseInt(style, 10) : style] *)
Definition style_number (v : jsval) : num :=
  match v with
  | VUndef => NaN
  | VStr s => Num.parseInt s 10
  | VNum z => Int z
  end.

(** [!isNaN(style)] *)
Definition is_number (n : num) : bool :=
  match n with
  | NaN => false
  | _ => true
  end.

Definition styleCodes (styles : list jsval) : list num :=
  filter is_number (map style_number (filter style_truthy styles)).

(** [halving(text, reg, styles)] *)
Definition halving (text : string) (reg : reg_value) (styles : list jsval)
  : string :=
  if reg_falsy reg then text
  else
    let alias := Str.toLowerCase (reg_text reg) in
    let down :=
      (mem alias down_aliases
       || match reg_sign reg with ToNumber.Negative => true | _ => false end)%bool in
    let up :=
      (mem alias up_aliases
       || match reg_sign reg with ToNumber.Positive => true | _ => false end)%bool in
    let key := if down then Some INDEX_down else if up then Some INDEX_up else None in
    match key with
    | None => text
    | Some k =>
        let codes := styleCodes styles in
        prefix ++ join_numbers ";" (Int k :: codes) ++ postfix ++ text
        ++ prefix ++ join_numbers ";" (Int INDEX_off :: codes) ++ postfix
    end.

(** [colorizeByText(text, code)]; [code = None] is a missing argument. *)
Definition colorizeByText (text : string) (code : option string)
  : completion string :=
  match code with
  | None => Normal text
  | Some EmptyString => Normal text
  | Some code =>
      r <- getColorFromText code ;;
      let '(textCode, rgbOpt) := r in
      let options :=
        match rgbOpt with
        | Some _ => Some {| bg := false; contrast := false; rgb := rgbOpt |}
        | None => None
        end in
      colorCode <- getColor textCode options ;;
      Normal (colorCode ++ text ++ reset)
  end.

(** ** The inline command parser *)

Record separators_t : Type := {
  command : option string;
  param : option string
}.

(** [separators && separators.field ? separators.field : default] *)
Definition separator_or (default : string) (field : option string) : string :=
  match field with
  | Some (String c r) => String c r
  | _ => default
  end.

Definition commandSeparator_of (separators : option separators_t) : string :=
  match separators with
  | Some s => separator_or "|" (command s)
  | None => "|"
  end.

Definition paramSeparator_of (separators : option separators_t) : string :=
  match separators with
  | Some s => separator_or "." (param s)
  | None => "."
  end.

(** [s[0]] *)
Definition first_char (s : string) : option ascii :=
  match s with
  | EmptyString => None
  | String c _ => Some c
  end.

Definition key_is (key : option ascii) (c : ascii) : bool :=
  match key with
  | Some k => Ascii.eqb k c
  | None => false
  end.

(** [[lastColor].filter((i) => i !== null)] and the like. *)
Definition not_null (lastColor : option string) : list jsval :=
  match lastColor with
  | Some c => [VStr c]
  | None => []
  end.

(** [params[0].replace(commandSeparator, "").toLowerCase()[0]] *)
Definition command_key (commandSeparator : string) (params : list string)
  : option ascii :=
  first_char (Str.toLowerCase (Str.remove_first (hd EmptyString params) commandSeparator)).

(** [params.slice(2).join("")] *)
Definition payload (params : list string) : string :=
  Str.join_empty (skipn 2 params).

(** The [i] branch. *)
Definition index_command (params : list string) (lastColor : option string)
  : string :=
  let reg :=
    match nth_error params 1 with
    | Some a => RegStr a
    | None => RegUndef
    end in
  halving (payload params) reg (not_null lastColor).

(** The [s] branch. *)
Definition style_command (params : list string) (lastColor : option string)
  : string :=
  let style :=
    match nth_error params 1 with
    | Some a => STYLES_get a
    | None => Absent
    end in
  let wrap (code : jsval) :=
    prefix ++ join_vals ";" (code :: not_null lastColor) ++ postfix in
  match style with
  | Own c =>
      wrap (VNum (on c)) ++ payload params ++ wrap (VNum (off c))
  | Inherited => wrap VUndef ++ payload params ++ wrap VUndef
  | Absent => payload params
  end.

(** The [c] branch: the text added and the new [lastColor].
    [params[1].toLowerCase()] throws when the segment has one field. *)
Definition color_command (params : list string)
  : completion (string * string) :=
  match nth_error params 1 with
  | None => Throw TypeError
  | Some a =>
      let lc := Str.toLowerCase a in
      let isBackground := Str.startsWith lc "bg_" in
      let isNeedContrast := Str.endsWith lc "+" in
      let cleanedCode := Str.remove_bg_plus O lc in
      r <- getColorFromText cleanedCode ;;
      let '(textCode, rgbOpt) := r in
      let options :=
        {| bg := isBackground; contrast := isNeedContrast; rgb := rgbOpt |} in
      color <- getColor textCode (Some options) ;;
      Normal (color ++ payload params,
              Str.strip_final_m (Str.remove_first color prefix))
  end.

(** The body of the [forEach] of [parseString]: one segment, on the buffer
    [str] and [lastColor] ([None] is [null]). *)
Definition command_step (commandSeparator paramSeparator : string)
    (st : string * option string) (i : string)
  : completion (string * option string) :=
  let '(str, lastColor) := st in
  let params := Str.split i paramSeparator in
  let key := command_key commandSeparator params in
  if key_is key "i" then Normal (str ++ index_command params lastColor, lastColor)
  else if key_is key "s" then Normal (str ++ style_command params lastColor, lastColor)
  else if key_is key "c" then
    r <- color_command params ;;
    Normal (str ++ fst r, Some (snd r))
  else Normal st.

Definition non_empty (s : string) : bool := negb (ToNumber.is_empty s).

(** [parseString(text, separators)] *)
Definition parseString (text : string) (separators : option separators_t)
  : completion string :=
  let commandSeparator := commandSeparator_of separators in
  let paramSeparator := paramSeparator_of separators in
  let dataArray := Str.split text commandSeparator in
  st <- forEach (command_step commandSeparator paramSeparator)
          (filter non_empty dataArray) (EmptyString, None) ;;
  Normal (fst st ++ reset).

(** ** The object-driven formatter *)

Inductive array_item : Type :=
| ItemStr (s : string)
| ItemBool (b : bool).

Record color_object : Type := {
  obj_data : option string;
  obj_text : option string;
  obj_content : option string;
  obj_contrast : option bool
}.

(** A colour of the options: a string, an array of a string and a flag, or
    an object. *)
Inductive color_data : Type :=
| ColorStr (s : string)
| ColorArr (l : list array_item)
| ColorObj (o : color_object).

Inductive style_spec : Type :=
| StyleOne (s : string)
| StyleMany (l : list string).

(** The object [prepareObject] reads; [None] is a missing property. *)
Record style_data : Type := {
  color : option color_data;
  background : option color_data;
  style : option style_spec
}.

Definition truthy (o : option string) : bool :=
  match o with
  | Some (String _ _) => true
  | _ => false
  end.

(** [a || b] on strings that may be missing. *)
Definition or_else (a b : option string) : option string :=
  if truthy a then a else b.

Fixpoint first_string (l : list array_item) : option string :=
  match l with
  | [] => None
  | ItemStr s :: _ => Some s
  | ItemBool _ :: l' => first_string l'
  end.

Fixpoint first_bool (l : list array_item) : option bool :=
  match l with
  | [] => None
  | ItemBool b :: _ => Some b
  | ItemStr _ :: l' => first_bool l'
  end.

Definition flag (o : option bool) : bool :=
  match o with
  | Some b => b
  | None => false
  end.

(** [getColorCode(colorData)] of [prepareObject]: the text code, the [rgb]
    option and the contrast flag.  A missing colour value throws in
    [getColorFromText]. *)
Definition getColorCode (colorData : color_data)
  : completion (string * color_options) :=
  let colorValue :=
    match colorData with
    | ColorStr s => Some s
    | ColorArr l => first_string l
    | ColorObj o => or_else (or_else (obj_data o) (obj_text o)) (obj_content o)
    end in
  let contrastFlag :=
    match colorData with
    | ColorStr _ => false
    | ColorArr l => flag (first_bool l)
    | ColorObj o => flag (obj_contrast o)
    end in
  match colorValue with
  | None => Throw TypeError
  | Some v =>
      r <- getColorFromText v ;;
      Normal (fst r, {| bg := false; contrast := contrastFlag; rgb := snd r |})
  end.

(** The code pushed for one colour property, if any:
    [colorCode.replace(prefix, "").replace(/m$/, "")] when [colorCode] is
    not empty. *)
Definition color_arg (colorData : color_data) (isBackground : bool)
  : completion (list jsval) :=
  r <- getColorCode colorData ;;
  let '(textCode, options) := r in
  let options :=
    if isBackground
    then {| bg := true; contrast := contrast options; rgb := rgb options |}
    else options in
  colorCode <- getColor textCode (Some options) ;;
  if non_empty colorCode
  then Normal [VStr (Str.strip_final_m (Str.remove_first colorCode prefix))]
  else Normal [].

(** The body of [styles.forEach]: [STYLES[i].on] throws when [STYLES[i]] is
    [undefined]. *)
Definition push_style (st : list jsval * list jsval) (i : string)
  : completion (list jsval * list jsval) :=
  let '(args, ends) := st in
  match STYLES_get i with
  | Own c => Normal ((args ++ [VNum (on c)])%list, (ends ++ [VNum (off c)])%list)
  | Inherited => Normal ((args ++ [VUndef])%list, (ends ++ [VUndef])%list)
  | Absent => Throw TypeError
  end.

(** [prepareObject(data)]: the arrays [args] and [ends]. *)
Definition prepareObject (data : style_data)
  : completion (list jsval * list jsval) :=
  args1 <- match color data with
           | Some colorData => color_arg colorData false
           | None => Normal []
           end ;;
  args2 <- match background data with
           | Some colorData => color_arg colorData true
           | None => Normal []
           end ;;
  match style data with
  | Some s =>
      let styles := match s with StyleOne i => [i] | StyleMany l => l end in
      forEach push_style styles ((args1 ++ args2)%list, [])
  | None => Normal ((args1 ++ args2)%list, [])
  end.

(** An entry of [options.currents]: a target and the style properties
    [prepareObject] reads from the same object. *)
Record current_entry : Type := {
  cur_target : option string;
  cur_style : style_data
}.

(** The [index] of a note: missing, a number or an array of numbers. *)
Inductive index_value : Type :=
| IndexUndef
| IndexOne (n : Z)
| IndexMany (l : list Z).

Record note_entry : Type := {
  note_target : option string;
  note_index : index_value;
  note_reg : reg_value
}.

(** A property that holds one entry or an array of entries. *)
Inductive one_or_many (A : Type) : Type :=
| One (a : A)
| Many (l : list A).

Arguments One {A} a.
Arguments Many {A} l.

(** [Array.isArray(x) ? x : [x]] *)
Definition as_array {A : Type} (x : one_or_many A) : list A :=
  match x with
  | One a => [a]
  | Many l => l
  end.

Record log_options : Type := {
  all : option style_data;
  currents : option (one_or_many current_entry);
  notes : option (one_or_many note_entry);
  separators : option separators_t
}.

(** The working state of [prepareCustomLog] after the global layer. *)
Record layers : Type := {
  textContent : string;
  changedTargets : list string;
  targetChanges : list (list jsval)
}.

Definition has_property {A : Type} (o : option A) : bool := is_some o.

(** [[args, ...globalArgs].join(";")]: the array [args], an element of the
    outer array, is printed by its own [toString], which joins with a
    comma. *)
Definition span_params (args globalArgs : list jsval) : string :=
  Str.join ";" (join_vals "," args :: map jsval_toString globalArgs).

(** The body of [currents.forEach]. *)
Definition current_step (global : string) (globalArgs : list jsval)
    (st : layers) (current : current_entry) : completion layers :=
  match cur_target current with
  | Some (String c r) =>
      let target := String c r in
      r <- prepareObject (cur_style current) ;;
      let '(args, ends) := r in
      let finish :=
        if (has_property (color (cur_style current))
            || has_property (background (cur_style current)))%bool
        then reset ++ global
        else prefix ++ join_vals ";" ends ++ postfix ++ global in
      Normal
        {| textContent :=
             Str.replaceAll (textContent st) target
               (prefix ++ span_params args globalArgs ++ postfix ++ target ++ finish);
           changedTargets := (changedTargets st ++ [target])%list;
           targetChanges := (targetChanges st ++ [args])%list |}
  | _ => Normal st
  end.

(** [changedTargets.findIndex((i) => i.includes(target))], then
    [targetChanges[targetUsed]], or [[]] when nothing is found. *)
Fixpoint styles_of_target (target : string) (changed : list string)
    (changes : list (list jsval)) : list jsval :=
  match changed, changes with
  | i :: changed', a :: changes' =>
      if Str.includes i target then a
      else styles_of_target target changed' changes'
  | _, _ => []
  end.

(** [indexes.includes(num)] *)
Definition index_includes (index : index_value) (n : nat) : bool :=
  match index with
  | IndexUndef => false
  | IndexOne z => z =? Z.of_nat n
  | IndexMany l => existsb (fun z => z =? Z.of_nat n) l
  end.

(** [symbols.map((symbol, num) => ...)], [num] counting from [n]. *)
Fixpoint map_symbols (index : index_value) (reg : reg_value)
    (styles : list jsval) (n : nat) (symbols : list string) : list string :=
  match symbols with
  | [] => []
  | symbol :: rest =>
      (if index_includes index n then halving symbol reg styles else symbol)
      :: map_symbols index reg styles (S n) rest
  end.

(** The body of [notes.forEach]. *)
Definition note_step (st : layers) (note : note_entry) : layers :=
  match note_target note with
  | Some (String c r) =>
      let target := String c r in
      let styles :=
        styles_of_target target (changedTargets st) (targetChanges st) in
      let current :=
        Str.join_empty
          (map_symbols (note_index note) (note_reg note) styles O
             (Str.chars target)) in
      {| textContent := Str.replaceAll (textContent st) target current;
         changedTargets := changedTargets st;
         targetChanges := targetChanges st |}
  | _ => st
  end.

(** The test that sends the whole call to [parseString]. *)
Definition delegates (text : string) (options : option log_options) : bool :=
  (match options with
   | Some o =>
       match separators o with
       | Some s =>
           match command s with
           | Some (String c r) => Str.includes text (String c r)
           | _ => false
           end
       | None => false
       end
   | None => false
   end
   || Str.includes text "|")%bool.

Definition separators_of (options : option log_options)
  : option separators_t :=
  match options with
  | Some o => separators o
  | None => None
  end.

(** The three layers of [prepareCustomLog], run when the call is not sent
    to [parseString]. *)
Definition structured (text : string) (options : option log_options)
  : completion string :=
  g <- match options with
       | Some {| all := Some a |} =>
           r <- prepareObject a ;;
           Normal (prefix ++ join_vals ";" (fst r) ++ postfix, fst r)
       | _ => Normal (EmptyString, [])
       end ;;
  let '(global, globalArgs) := g in
  let str := global in
  let st0 :=
    {| textContent := text; changedTargets := []; targetChanges := [] |} in
  st1 <- match options with
         | Some {| currents := Some cs |} =>
             forEach (current_step global globalArgs) (as_array cs) st0
         | _ => Normal st0
         end ;;
  let st2 :=
    match options with
    | Some {| notes := Some ns |} => fold_left note_step (as_array ns) st1
    | _ => st1
    end in
  Normal (str ++ textContent st2 ++ reset).

(** [prepareCustomLog(text, options)]; [options = None] is [null]. *)
Definition prepareCustomLog (text : string) (options : option log_options)
  : completion string :=
  if delegates text options
  then parseString text (separators_of options)
  else structured text options.

(** * The logger and the suppression of repeated logs *)

Module Logger.

(** The keys of [lastLogs]. *)
Inductive channel : Type :=
| ch_debug
| ch_info
| ch_warn
| ch_error
| ch_print
| ch_custom.

Definition channel_name (c : channel) : string :=
  match c with
  | ch_debug => "debug"
  | ch_info => "info"
  | ch_warn => "warn"
  | ch_error => "error"
  | ch_print => "print"
  | ch_custom => "custom"
  end.

(** An entry of [lastLogs]; [text = None] is [null]. *)
Record last_log : Type := {
  text : option string;
  timestamp : Z
}.

Definition no_log : last_log := {| text := None; timestamp := 0 |}.

Record lastLogs_t : Type := {
  debug : last_log;
  info : last_log;
  warn : last_log;
  error : last_log;
  print : last_log;
  custom : last_log
}.

(** [lastLogs[type]] *)
Definition lastLogs_get (l : lastLogs_t) (type : channel) : last_log :=
  match type with
  | ch_debug => debug l
  | ch_info => info l
  | ch_warn => warn l
  | ch_error => error l
  | ch_print => print l
  | ch_custom => custom l
  end.

(** [lastLogs[type] = v] *)
Definition lastLogs_set (l : lastLogs_t) (type : channel) (v : last_log)
  : lastLogs_t :=
  match type with
  | ch_debug => {| debug := v; info := info l; warn := warn l; error := error l;
                   print := print l; custom := custom l |}
  | ch_info => {| debug := debug l; info := v; warn := warn l; error := error l;
                  print := print l; custom := custom l |}
  | ch_warn => {| debug := debug l; info := info l; warn := v; error := error l;
                  print := print l; custom := custom l |}
  | ch_error => {| debug := debug l; info := info l; warn := warn l; error := v;
                   print := print l; custom := custom l |}
  | ch_print => {| debug := debug l; info := info l; warn := warn l;
                   error := error l; print := v; custom := custom l |}
  | ch_custom => {| debug := debug l; info := info l; warn := warn l;
                    error := error l; print := print l; custom := v |}
  end.

(** The history with every entry [{ text: null, timestamp: 0 }]. *)
Definition empty_history : lastLogs_t :=
  {| debug := no_log; info := no_log; warn := no_log; error := no_log;
     print := no_log; custom := no_log |}.

Record suppressionConfig_t : Type := {
  enabled : bool;
  timeout : Z;
  showCounter : bool
}.

(** [Map.prototype.set]: the value of a key that is present is replaced in
    its place, a new key goes to the end. *)
Fixpoint Map_set (k : string) (v : Z) (m : list (string * Z))
  : list (string * Z) :=
  match m with
  | [] => [(k, v)]
  | (k', v') :: m' =>
      if String.eqb k' k then (k, v) :: m' else (k', v') :: Map_set k v m'
  end.

(** [Map.prototype.delete] *)
Fixpoint Map_delete (k : string) (m : list (string * Z)) : list (string * Z) :=
  match m with
  | [] => []
  | (k', v') :: m' =>
      if String.eqb k' k then m' else (k', v') :: Map_delete k m'
  end.

(** The variables of the module: the history, the configuration and the
    counters of repeats, a [Map] from [type:text] to a count. *)
Record logger : Type := {
  lastLogs : lastLogs_t;
  suppressionConfig : suppressionConfig_t;
  repeatCounters : list (string * Z)
}.

(** The state in which the module is loaded. *)
Definition initial : logger :=
  {| lastLogs := empty_history;
     suppressionConfig := {| enabled := false; timeout := 1000; showCounter := true |};
     repeatCounters := [] |}.

(** The argument of [configureLogSuppression]; [None] is a missing
    property. *)
Record config_t : Type := {
  cfg_enabled : option bool;
  cfg_timeout : option Z;
  cfg_showCounter : option bool;
  cfg_resetHistory : bool
}.

(** [config.timeout || 1000] *)
Definition timeout_or_default (t : option Z) : Z :=
  match t with
  | Some v => if v =? 0 then 1000 else v
  | None => 1000
  end.

Definition value_or_true (b : option bool) : bool :=
  match b with
  | Some v => v
  | None => true
  end.

(** [configureLogSuppression(config)] *)
Definition configureLogSuppression (config : config_t) (st : logger) : logger :=
  {| lastLogs := if cfg_resetHistory config then empty_history else lastLogs st;
     suppressionConfig :=
       {| enabled := value_or_true (cfg_enabled config);
          timeout := timeout_or_default (cfg_timeout config);
          showCounter := value_or_true (cfg_showCounter config) |};
     repeatCounters := repeatCounters st |}.

(** The methods of [console] the module calls. *)
Inductive console : Type :=
| console_log
| console_debug
| console_info
| console_warn
| console_error.

(** What a call leaves: the variables of the module, the lines written to
    the console, in order, and the value returned or the exception. *)
Record run (A : Type) : Type := {
  state : logger;
  printed : list (console * string);
  outcome : completion A
}.

Arguments state {A} r.
Arguments printed {A} r.
Arguments outcome {A} r.

(** [`${type}:${text}`] *)
Definition counter_key (type : channel) (t : string) : string :=
  channel_name type ++ ":" ++ t.

(** [lastLog.text === text] *)
Definition same_text (last : option string) (t : string) : bool :=
  match last with
  | Some l => String.eqb l t
  | None => false
  end.

(** The multiplication sign of [[×N]], U+00D7. *)
Definition times_sign : string := String "215"%char EmptyString.

(** [`[×${count + 1}]`] *)
Definition counter_mark (count : Z) : string :=
  "[" ++ times_sign ++ Num.toString (count + 1) ++ "]".

Section Notice.

(** The two words of the notice [[<repeated> N <times>]] that
    [checkIfRepeat] prints are Cyrillic, outside the characters of
    [string]; they are parameters. *)
Variables word_repeated word_times : string.

Definition repeated_notice (oldCount : Z) : string :=
  "[" ++ word_repeated ++ " " ++ Num.toString oldCount ++ " " ++ word_times ++ "]".

(** [checkIfRepeat(type, text)], with [now] the value of [Date.now()]. *)
Definition checkIfRepeat (type : channel) (t : string) (now : Z) (st : logger)
  : run (bool * Z) :=
  let cfg := suppressionConfig st in
  if negb (enabled cfg)
  then {| state := st; printed := []; outcome := Normal (false, 0) |}
  else
    let lastLog := lastLogs_get (lastLogs st) type in
    let key := counter_key type t in
    if (same_text (text lastLog) t && (now - timestamp lastLog <? timeout cfg))%bool
    then
      let count :=
        match assoc key (repeatCounters st) with
        | Some c => c
        | None => 0
        end + 1 in
      {| state := {| lastLogs := lastLogs st;
                     suppressionConfig := cfg;
                     repeatCounters := Map_set key count (repeatCounters st) |};
         printed := [];
         outcome := Normal (true, count) |}
    else
      let logged :=
        lastLogs_set (lastLogs st) type {| text := Some t; timestamp := now |} in
      match assoc key (repeatCounters st) with
      | Some oldCount =>
          let st' :=
            {| lastLogs := logged;
               suppressionConfig := cfg;
               repeatCounters := Map_delete key (repeatCounters st) |} in
          if ((0 <? oldCount) && showCounter cfg)%bool
          then
            match colorizeByText (repeated_notice oldCount) (Some "dim") with
            | Normal line =>
                {| state := st'; printed := [(console_log, line)];
                   outcome := Normal (false, 0) |}
            | Throw e => {| state := st'; printed := []; outcome := Throw e |}
            end
          else {| state := st'; printed := []; outcome := Normal (false, 0) |}
      | None =>
          {| state := {| lastLogs := logged;
                         suppressionConfig := cfg;
                         repeatCounters := repeatCounters st |};
             printed := [];
             outcome := Normal (false, 0) |}
      end.

(** The second argument of the methods of [LOG]: missing, [null], a
    boolean (which is then the [force] flag) or a colour. *)
Inductive color_param : Type :=
| Missing
| Null
| Flag (b : bool)
| Name (s : string).

(** The colour and the [force] flag in force after the test
    [typeof color === "boolean"]; [default] is the default value of the
    parameter and the colour set for a boolean. *)
Definition settle (default : option string) (color : color_param) (force : bool)
  : option string * bool :=
  match color with
  | Missing => (default, force)
  | Null => (None, force)
  | Flag b => (default, b)
  | Name s => (Some s, force)
  end.

(** Writes the line, unless making it has thrown. *)
Definition write (st : logger) (before : list (console * string))
    (method : console) (line : completion string) : run unit :=
  match line with
  | Normal l =>
      {| state := st; printed := (before ++ [(method, l)])%list;
         outcome := Normal tt |}
  | Throw e => {| state := st; printed := before; outcome := Throw e |}
  end.

(** The body that [LOG.debug], [LOG.warn], [LOG.error] and [LOG.print]
    share, after their arguments are settled. *)
Definition colored (method : console) (type : channel) (t : string)
    (color : option string) (force : bool) (now : Z) (st : logger) : run unit :=
  let r := checkIfRepeat type t now st in
  match outcome r with
  | Throw e => {| state := state r; printed := printed r; outcome := Throw e |}
  | Normal (isRepeat, count) =>
      let cfg := suppressionConfig (state r) in
      if (negb force && isRepeat && enabled cfg)%bool
      then {| state := state r; printed := printed r; outcome := Normal tt |}
      else if (isRepeat && (0 <? count) && showCounter cfg)%bool
      then
        write (state r) (printed r) method
          (counter <- colorizeByText (counter_mark count) (Some "dim") ;;
           line <- colorizeByText t color ;;
           Normal (line ++ " " ++ counter))
      else write (state r) (printed r) method (colorizeByText t color)
  end.

(** [LOG.debug(text, color = "blue", force = false)] *)
Definition LOG_debug (t : string) (color : color_param) (force : bool)
    (now : Z) (st : logger) : run unit :=
  let '(c, f) := settle (Some "blue") color force in
  colored console_debug ch_debug t c f now st.

(** [LOG.warn(text, color = "yellow", force = false)] *)
Definition LOG_warn (t : string) (color : color_param) (force : bool)
    (now : Z) (st : logger) : run unit :=
  let '(c, f) := settle (Some "yellow") color force in
  colored console_warn ch_warn t c f now st.

(** [LOG.error(text, color = "red", force = false)] *)
Definition LOG_error (t : string) (color : color_param) (force : bool)
    (now : Z) (st : logger) : run unit :=
  let '(c, f) := settle (Some "red") color force in
  colored console_error ch_error t c f now st.

(** [LOG.print(text, color, force = false)] *)
Definition LOG_print (t : string) (color : color_param) (force : bool)
    (now : Z) (st : logger) : run unit :=
  let '(c, f) := settle None color force in
  colored console_log ch_print t c f now st.

(** [LOG.info(text, color = null, force = false)] *)
Definition LOG_info (t : string) (color : color_param) (force : bool)
    (now : Z) (st : logger) : run unit :=
  let '(c, f) := settle None color force in
  let r := checkIfRepeat ch_info t now st in
  match outcome r with
  | Throw e => {| state := state r; printed := printed r; outcome := Throw e |}
  | Normal (isRepeat, count) =>
      let cfg := suppressionConfig (state r) in
      let counted := (isRepeat && (0 <? count) && showCounter cfg)%bool in
      if (negb f && isRepeat && enabled cfg)%bool
      then {| state := state r; printed := printed r; outcome := Normal tt |}
      else if negb (truthy c)
      then
        if counted
        then
          write (state r) (printed r) console_info
            (counter <- colorizeByText (counter_mark count) (Some "dim") ;;
             Normal (t ++ " " ++ counter))
        else write (state r) (printed r) console_info (Normal t)
      else
        if counted
        then
          write (state r) (printed r) console_info
            (line <- colorizeByText t c ;;
             counter <- colorizeByText (" " ++ counter_mark count) (Some "dim") ;;
             Normal (line ++ counter))
        else write (state r) (printed r) console_info (colorizeByText t c)
  end.

(** [LOG.custom(text, options, force = false)] *)
Definition LOG_custom (t : string) (options : option log_options)
    (force : bool) (now : Z) (st : logger) : run unit :=
  let r := checkIfRepeat ch_custom t now st in
  match outcome r with
  | Throw e => {| state := state r; printed := printed r; outcome := Throw e |}
  | Normal (isRepeat, count) =>
      let cfg := suppressionConfig (state r) in
      if (negb force && isRepeat && enabled cfg)%bool
      then {| state := state r; printed := printed r; outcome := Normal tt |}
      else if (isRepeat && (0 <? count) && showCounter cfg)%bool
      then
        write (state r) (printed r) console_log
          (counter <- colorizeByText (counter_mark count) (Some "dim") ;;
           line <- prepareCustomLog t options ;;
           Normal (line ++ " " ++ counter))
      else write (state r) (printed r) console_log (prepareCustomLog t options)
  end.

End Notice.

(** [LOG.resetSuppression()] *)
Definition LOG_resetSuppression (st : logger) : logger :=
  {| lastLogs := empty_history;
     suppressionConfig := suppressionConfig st;
     repeatCounters := [] |}.

(** [LOG.getSuppressionStats()]: a copy of the configuration and the
    entries of the counters, in the order of the [Map]. *)
Definition LOG_getSuppressionStats (st : logger)
  : suppressionConfig_t * list (string * Z) :=
  (suppressionConfig st, repeatCounters st).

(** [LOG.enableSuppression()] *)
Definition LOG_enableSuppression (st : logger) : logger :=
  configureLogSuppression
    {| cfg_enabled := Some true; cfg_timeout := None; cfg_showCounter := None;
       cfg_resetHistory := false |} st.


End Logger.

(** * Vocabulary of the properties *)

(** [p] occurs in [s]. *)
Definition occurs_in (p s : string) : Prop :=
  exists a b, s = a ++ p ++ b.


Definition red_bold_current : current_entry :=
  {| cur_target := Some "x";
     cur_style := {| color := Some (ColorStr "red"); background := None;
                     style := Some (StyleOne "bold") |} |}.

Definition options_with_current (c : current_entry) : option log_options :=
  Some {| all := None; currents := Some (Many [c]); notes := None;
          separators := None |}.

Definition only_all (a : style_data) : option log_options :=
  Some {| all := Some a; currents := None; notes := None; separators := None |}.

Definition color_only (c : string) : style_data :=
  {| color := Some (ColorStr c); background := None; style := None |}.

Definition style_only (s : string) : style_data :=
  {| color := None; background := None; style := Some (StyleOne s) |}.

(** The command separator in force: the configured one, or [|]. *)
Definition active_separator (options : option log_options) : string :=
  commandSeparator_of (separators_of options).

(** The delegation rule as the design document words it, at one input: the
    call goes to [parseString] exactly when the text contains the active
    separator, and the layers apply otherwise. *)
Definition delegation_as_documented (text : string)
    (options : option log_options) : Prop :=
  (occurs_in (active_separator options) text ->
   prepareCustomLog text options = parseString text (separators_of options))
  /\ (~ occurs_in (active_separator options) text ->
      prepareCustomLog text options = structured text options).

Definition green_with_dash : option log_options :=
  Some {| all := Some (color_only "green"); currents := None; notes := None;
          separators := Some {| command := Some "-"; param := None |} |}.

(** The separator that [options.separators.command] configures, if any. *)
Definition configured_separator (options : option log_options)
  : option string :=
  match options with
  | Some {| separators := Some {| command := Some (String c r) |} |} =>
      Some (String c r)
  | _ => None
  end.

(** The text contains the configured separator or the character [|]. *)
Definition has_command_marker (text : string) (options : option log_options)
  : Prop :=
  (exists sep, configured_separator options = Some sep /\ occurs_in sep text)
  \/ occurs_in "|" text.

(** The key of the segment, as the code computes it, is [i], [s] or [c]. *)
Definition recognized (commandSeparator paramSeparator i : string) : bool :=
  let key := command_key commandSeparator (Str.split i paramSeparator) in
  (key_is key "i" || key_is key "s" || key_is key "c")%bool.

(** *** Segments, fields and payloads in the words of the design document *)



(** The kind of a segment: its first character, in lower case.  A segment
    that starts with the parameter separator has an empty first field, and
    no kind. *)
Definition segment_kind (paramSeparator i : string) : option ascii :=
  match i with
  | EmptyString => None
  | String x _ =>
      if Str.startsWith i paramSeparator then None else Some (Str.lower_char x)
  end.

(** The segment runs as a command: its kind is [i], [s] or [c]. *)
Definition is_command (paramSeparator i : string) : bool :=
  match segment_kind paramSeparator i with
  | Some k => (Ascii.eqb k "i" || Ascii.eqb k "s" || Ascii.eqb k "c")%bool
  | None => false
  end.







(** The options of a named colour: no [rgb]. *)
Definition named_options (background bright : bool) : option color_options :=
  Some {| bg := background; contrast := bright; rgb := None |}.

(** The shift of the colour code: 10 for a background, 60 for the bright
    variant. *)
Definition code_shift (background bright : bool) : Z :=
  (if background then 10 else 0) + (if bright then 60 else 0).

(** The escape sequence of one code. *)
Definition sgr (n : Z) : string := prefix ++ Num.toString n ++ postfix.

(** The text between the marker of the given code and the marker that ends
    it, both carrying the codes of [styles]. *)
Definition index_span (code : Z) (text : string) (styles : list jsval)
  : string :=
  prefix ++ join_numbers ";" (Int code :: styleCodes styles) ++ postfix ++ text
  ++ prefix ++ join_numbers ";" (Int INDEX_off :: styleCodes styles) ++ postfix.

(** A character a numeric string can start with. *)
Definition numeric_head (c : ascii) : bool :=
  (Num.is_space c || Str.is_digit c || Ascii.eqb c "." || Ascii.eqb c "+"
   || Ascii.eqb c "-" || Ascii.eqb c "I")%bool.

Fixpoint all_chars (p : ascii -> bool) (s : string) : bool :=
  match s with
  | EmptyString => true
  | String c r => (p c && all_chars p r)%bool
  end.

(** A run: digits, at least one. *)
Definition is_run (s : string) : Prop :=
  all_chars Str.is_digit s = true /\ s <> EmptyString.

(** A delimiter: characters that are not digits. *)
Definition is_delimiter (s : string) : Prop :=
  all_chars (fun c => negb (Str.is_digit c)) s = true.

(** The text made of the blocks, each a delimiter and the run after it,
    and a last delimiter. *)
Fixpoint interleave (blocks : list (string * string)) (last : string) : string :=
  match blocks with
  | [] => last
  | (d, r) :: rest => d ++ r ++ interleave rest last
  end.

(** The runs of the blocks are the maximal runs of digits of the text:
    every delimiter but the first has a character. *)
Definition well_separated (blocks : list (string * string)) (last : string)
  : Prop :=
  Forall (fun b => is_delimiter (fst b) /\ is_run (snd b)) blocks
  /\ Forall (fun b => fst b <> EmptyString) (tl blocks)
  /\ is_delimiter last.

(** The matches of [/\d*/g] that [parseRGB] keeps. *)
Definition digit_runs (s : string) : list string :=
  filter (fun i => negb (ToNumber.is_empty i)) (match_digit_runs EmptyString s).

(** [s] is empty or starts with a character that is not a digit. *)
Definition no_digit_ahead (s : string) : Prop :=
  match s with
  | EmptyString => True
  | String c _ => Str.is_digit c = false
  end.

(** The integer that a run of decimal digits writes: each digit counts
    with the power of ten of its place. *)
Fixpoint decimal_value (r : string) : Z :=
  match r with
  | EmptyString => 0
  | String c rest =>
      (Z.of_nat (Str.code c) - 48) * 10 ^ Z.of_nat (String.length rest)
      + decimal_value rest
  end.

(** The components that the design document gives for the runs of the
    blocks: the values of the first three, each reduced modulo 256. *)
Definition components (blocks : list (string * string)) : list Z :=
  map (fun r => decimal_value r mod 256) (firstn 3 (map snd blocks)).

(** The extraction as the design document words it: [parseRGB] gives these
    components. *)
Definition extraction_as_documented (blocks : list (string * string))
    (last : string) : Prop :=
  parseRGB (RgbString (interleave blocks last)) = Some (map Int (components blocks)).

(** The runs that [parseRGB] keeps write integers below 2^53, which a
    number holds as they are. *)
Definition exact_runs (blocks : list (string * string)) : Prop :=
  Forall (fun r => decimal_value r < 2 ^ 53) (firstn 3 (map snd blocks)).

(** The first parameter of an extended colour: 38, or 48 for a
    background. *)
Definition selector (background : bool) : Z :=
  38 + (if background then 10 else 0).

Definition rgb_options (background bright : bool) (comps : list Z)
  : option color_options :=
  Some {| bg := background; contrast := bright; rgb := Some (map Int comps) |}.

(** The lengths of a hex colour that [hexToRgb] reads. *)
Definition supported_hex_length (n : nat) : bool :=
  (Nat.eqb n 3 || Nat.eqb n 6 || Nat.eqb n 8)%bool.

(** The character [c] is the hex digit of value [v]. *)
Definition hex_digit (c : ascii) (v : Z) : Prop :=
  Num.digit_value 16 c = Some v.

(** The text has no character [$]. *)
Definition dollar_free (s : string) : Prop :=
  all_chars (fun c => negb (Ascii.eqb c "$")) s = true.

(** An object of styles alone. *)
Definition styles_only (names : list string) : style_data :=
  {| color := None; background := None; style := Some (StyleMany names) |}.

(** No position of a target of [len] characters is in the index. *)
Definition index_outside (index : index_value) (len : nat) : Prop :=
  forall n, (n < len)%nat -> index_includes index n = false.

(** Options without configured separators. *)
Definition default_separators (options : option log_options) : Prop :=
  separators_of options = None.

(** No character of the text is [x]. *)
Definition without_char (x : ascii) (s : string) : Prop :=
  all_chars (fun c => negb (Ascii.eqb c x)) s = true.

(** The text of the pieces with [filler] after each of them, and a last
    piece. *)
Definition fill (pieces : list string) (filler last : string) : string :=
  interleave (map (fun p => (p, filler)) pieces) last.

(** The sequence that ends a targeted span, when there is no global
    style: the reset for an entry with a colour or a background, the
    off-codes of its styles otherwise. *)
Definition span_end (current : current_entry) (ends : list jsval) : string :=
  if (has_property (color (cur_style current))
      || has_property (background (cur_style current)))%bool
  then reset
  else prefix ++ join_vals ";" ends ++ postfix.

(** The codes of [args] and [ends] print without [$]. *)
Definition plain_codes (l : list jsval) : Prop :=
  Forall (fun v => dollar_free (jsval_toString v)) l.

(** Suppression is switched on. *)
Definition suppressing (st : Logger.logger) : Prop :=
  Logger.enabled (Logger.suppressionConfig st) = true.

(** The count of repeats kept for a text on a channel, 0 when there is
    none. *)
Definition count_of (st : Logger.logger) (type : Logger.channel) (t : string)
  : Z :=
  match assoc (Logger.counter_key type t) (Logger.repeatCounters st) with
  | Some c => c
  | None => 0
  end.

(** The last text logged on the channel is [t], less than the timeout
    before [now]. *)
Definition within_window (st : Logger.logger) (type : Logger.channel)
    (t : string) (now : Z) : Prop :=
  Logger.text (Logger.lastLogs_get (Logger.lastLogs st) type) = Some t
  /\ now - Logger.timestamp (Logger.lastLogs_get (Logger.lastLogs st) type)
     < Logger.timeout (Logger.suppressionConfig st).

(** The counters are those of a [Map], and every count kept is at least
    1. *)
Definition well_kept (st : Logger.logger) : Prop :=
  NoDup (map fst (Logger.repeatCounters st))
  /\ Forall (fun entry => 1 <= snd entry) (Logger.repeatCounters st).

(** The outcomes of [checkIfRepeat] for the same text on the same channel
    at the given times, one call after the other. *)
Fixpoint repeats (w1 w2 : string) (type : Logger.channel) (t : string)
    (times : list Z) (st : Logger.logger) : list (completion (bool * Z)) :=
  match times with
  | [] => []
  | now :: rest =>
      let r := Logger.checkIfRepeat w1 w2 type t now st in
      Logger.outcome r :: repeats w1 w2 type t rest (Logger.state r)
  end.

(** * Properties *)

(** ** Strings *)

Lemma append_assoc (a b c : string) : (a ++ b) ++ c = a ++ b ++ c.
Proof.
  induction a as [|x a IH]; simpl; [reflexivity | now rewrite IH].
Qed.

Lemma append_nil_r (a : string) : a ++ EmptyString = a.
Proof.
  induction a as [|x a IH]; simpl; [reflexivity | now rewrite IH].
Qed.

Lemma length_append (a b : string) :
  String.length (a ++ b) = (String.length a + String.length b)%nat.
Proof.
  induction a as [|x a IH]; simpl; [reflexivity | now rewrite IH].
Qed.

Lemma length_toLowerCase (s : string) :
  String.length (Str.toLowerCase s) = String.length s.
Proof.
  induction s as [|x s IH]; simpl; [reflexivity | now rewrite IH].
Qed.

Lemma prefix_spec (p s : string) :
  String.prefix p s = true <-> exists b, s = p ++ b.
Proof.
  revert s. induction p as [|x p IH]; intros s.
  - split; [intros _; exists s; reflexivity | intros _; now destruct s].
  - destruct s as [|y s]; simpl.
    + split; [discriminate | intros [b H]; discriminate].
    + destruct (ascii_dec x y) as [->|N].
      * rewrite IH. split; intros [b H]; exists b; [now rewrite H | now inversion H].
      * split; [discriminate | intros [b H]; inversion H; congruence].
Qed.

Lemma includes_spec (s p : string) :
  Str.includes s p = true <-> occurs_in p s.
Proof.
  induction s as [|x s IH].
  - cbn [Str.includes]. rewrite orb_false_r, prefix_spec. split.
    + intros [b H]. exists EmptyString, b. exact H.
    + intros [a [b H]]. destruct a; [exists b; exact H | discriminate].
  - cbn [Str.includes]. rewrite orb_true_iff, IH, prefix_spec. split.
    + intros [[b H] | [a [b H]]].
      * exists EmptyString, b. exact H.
      * exists (String x a), b. simpl. now rewrite H.
    + intros [a [b H]]. destruct a as [|y a].
      * left. exists b. exact H.
      * right. exists a, b. simpl in H. now inversion H.
Qed.

Lemma prefix_occurs (pat s : string) :
  String.prefix pat s = true -> occurs_in pat s.
Proof.
  intros H. apply prefix_spec in H as [b ->]. now exists EmptyString, b.
Qed.

Lemma occurs_in_tail (pat : string) (c : ascii) (r : string) :
  occurs_in pat r -> occurs_in pat (String c r).
Proof.
  intros [a [b ->]]. now exists (String c a), b.
Qed.

Lemma prefix_empty (s : string) : String.prefix EmptyString s = true.
Proof.
  now destruct s.
Qed.

Lemma split_go_absent (sep : string) :
  forall s cur,
    ~ occurs_in sep s -> Str.split_go sep O cur s = [cur ++ s].
Proof.
  induction s as [|c s IH]; intros cur N.
  - simpl. now rewrite append_nil_r.
  - cbn [Str.split_go].
    destruct (String.prefix sep (String c s)) eqn:P.
    + exfalso. now apply N, prefix_occurs.
    + rewrite IH by (intros H; now apply N, occurs_in_tail).
      unfold Str.snoc. now rewrite append_assoc.
Qed.


Lemma join_empty_cons (a : string) (l : list string) :
  Str.join_empty (a :: l) = a ++ Str.join_empty l.
Proof.
  unfold Str.join_empty. destruct l; simpl; [now rewrite append_nil_r | reflexivity].
Qed.

(** ** The loop *)

Lemma forEach_cons {S A : Type} (f : S -> A -> completion S) (a : A)
    (l : list A) (st : S) :
  forEach f (a :: l) st = (st' <- f st a ;; forEach f l st').
Proof.
  reflexivity.
Qed.


(** ** Output ends in the full reset *)






(** ** Malformed colours *)

(** [hexToRgb] answers [null] for a hex colour that has not 3, 6 or 8
    digits. *)
Lemma hexToRgb_other_length (hex : string) :
  let n := String.length (Str.strip_hash hex) in
  n <> 3%nat -> n <> 6%nat -> n <> 8%nat -> hexToRgb hex = None.
Proof.
  unfold hexToRgb. cbv zeta.
  destruct (String.length (Str.strip_hash hex)) as [|[|[|[|[|[|[|[|[|n]]]]]]]]];
    intros; congruence.
Qed.

(** [getColorFromText] throws on every colour for which [hexToRgb] answers
    [null]. *)
Lemma getColorFromText_throws_on_null (code : string) :
  Str.startsWith code "#" = true ->
  hexToRgb code = None ->
  getColorFromText code = Throw TypeError.
Proof.
  intros H N. unfold getColorFromText. now rewrite H, N.
Qed.

(** C1. The formatting operations throw on a malformed colour: a hex colour
    of four digits and a colour whose cleaned form is empty make
    [getColorFromText] read [length] of [null], and the exception leaves
    [colorizeByText], [parseString] and [prepareCustomLog]. *)
Theorem malformed_color_throws :
  hexToRgb "#ffff" = None
  /\ getColorFromText "#ffff" = Throw TypeError
  /\ getColorFromText "" = Throw TypeError
  /\ colorizeByText "X" (Some "#ffff") = Throw TypeError
  /\ parseString "|c.#ffff.X|" None = Throw TypeError
  /\ parseString "|c.bg_.X|" None = Throw TypeError
  /\ prepareCustomLog "X" (only_all (color_only "#ffff")) = Throw TypeError.
Proof.
  repeat split; reflexivity.
Qed.

(** ** Hex colours *)

(** The three-digit form reads each digit twice, whatever the characters. *)
Lemma hexToRgb_three_digits (a b c : ascii) :
  let one x := String x EmptyString in
  hexToRgb (String "#" (one a ++ one b ++ one c))
  = hexToRgb (String "#" (one a ++ one a ++ one b ++ one b ++ one c ++ one c)).
Proof.
  reflexivity.
Qed.

(** The eight-digit form drops its last two characters. *)
Lemma hexToRgb_alpha_discarded (r1 r2 g1 g2 b1 b2 a1 a2 : ascii) :
  let six := String r1 (String r2 (String g1 (String g2 (String b1 (String b2 EmptyString))))) in
  hexToRgb (String "#" (six ++ String a1 (String a2 EmptyString)))
  = hexToRgb (String "#" six).
Proof.
  reflexivity.
Qed.

Lemma hex_forms_agree :
  colorizeByText "X" (Some "#f00") = colorizeByText "X" (Some "#ff0000")
  /\ colorizeByText "X" (Some "#ff0000ff") = colorizeByText "X" (Some "#ff0000")
  /\ colorizeByText "X" (Some "#ff0000")
     = Normal (String ESC "[38;2;255;0;0mX" ++ reset).
Proof.
  repeat split; reflexivity.
Qed.

(** C9. A hex colour of another length than 3, 6 or 8 digits does not give
    an empty colour: [hexToRgb] answers [null] and the resolution throws, so
    the text is not passed through. *)
Theorem hex_other_length_throws :
  hexToRgb "#ff00" = None
  /\ getColorFromText "#ff00" = Throw TypeError
  /\ colorizeByText "X" (Some "#ff00") = Throw TypeError
  /\ parseString "|c.#ff00.X|" None = Throw TypeError.
Proof.
  repeat split; reflexivity.
Qed.

(** ** Unknown styles *)

(** The [s] command of [parseString] leaves the payload of a style that
    [STYLES[name]] does not find as it is. *)
Lemma style_command_unknown (name : string) (rest : list string)
    (first : string) (lastColor : option string) :
  STYLES_get name = Absent ->
  style_command (first :: name :: rest) lastColor = Str.join_empty rest.
Proof.
  intros H. unfold style_command. simpl. now rewrite H.
Qed.

(** C5. [prepareObject] throws on a style name that is not in the table, as
    it reads [on] of [undefined]; so does [prepareCustomLog] for such a
    style in [all] or in an entry of [currents].  [parseString] keeps the
    payload and adds no codes. *)
Theorem unknown_style_throws :
  STYLES_get "foo" = Absent
  /\ prepareObject (style_only "foo") = Throw TypeError
  /\ prepareCustomLog "x" (only_all (style_only "foo")) = Throw TypeError
  /\ prepareCustomLog "x"
       (options_with_current
          {| cur_target := Some "x"; cur_style := style_only "foo" |})
     = Throw TypeError
  /\ parseString "|s.foo.X|" None = Normal ("X" ++ reset).
Proof.
  repeat split; reflexivity.
Qed.

(** A name that every object inherits, such as [constructor], is not in the
    table either, but [STYLES[name]] is then a function: [parseString]
    wraps the payload in sequences without a code, and [prepareObject]
    pushes [undefined]. *)
Example inherited_style_name :
  STYLES_get "constructor" = Inherited
  /\ parseString "|s.constructor.X|" None
     = Normal (String ESC "[mX" ++ String ESC "[m" ++ reset)
  /\ prepareObject (style_only "constructor") = Normal ([VUndef], [VUndef]).
Proof.
  repeat split; reflexivity.
Qed.

(** ** Escape sequences of the targeted spans *)

(** C4. The on-sequence of a targeted span is not one list joined by
    semicolons: the codes of the entry are joined by commas.  For the
    target [x] with colour [red] and style [bold] the output starts with
    [ESC[31,1m], where [ESC[31;1m] was meant. *)
Theorem current_codes_joined_by_comma :
  prepareObject (cur_style red_bold_current) = Normal ([VStr "31"; VNum 1], [VNum 22])
  /\ span_params [VStr "31"; VNum 1] [] = "31,1"
  /\ prepareCustomLog "x" (options_with_current red_bold_current)
     = Normal (String ESC "[31,1mx" ++ reset ++ reset)
  /\ prepareCustomLog "x" (only_all (cur_style red_bold_current))
     = Normal (String ESC "[31;1mx" ++ reset).
Proof.
  repeat split; reflexivity.
Qed.

(** ** Delegation to the inline parser *)

(** C3 fails as worded.  With the separator [-] configured, the text [a|b]
    does not contain the active separator, and the call is delegated all
    the same: the output is the bare reset of [parseString], not the green
    text of the layers. *)
Lemma delegation_counterexample :
  ~ delegation_as_documented "a|b" green_with_dash.
Proof.
  intros [_ H].
  assert (N : ~ occurs_in (active_separator green_with_dash) "a|b").
  { rewrite <- includes_spec. vm_compute. discriminate. }
  specialize (H N). vm_compute in H. discriminate.
Qed.

Lemma delegates_spec (text : string) (options : option log_options) :
  delegates text options = true <-> has_command_marker text options.
Proof.
  unfold delegates, has_command_marker, configured_separator.
  rewrite orb_true_iff, !includes_spec.
  destruct options as [[a c n [[[[|x r]|] p]|]]|]; simpl;
    rewrite ?includes_spec.
  all: split;
    [ intros [H|H]; [try discriminate | right; exact H]
    | intros [[sep [E H]]|H]; [try discriminate | right; exact H] ].
  - left. exists (String x r). auto.
  - left. inversion E. subst sep. exact H.
Qed.

(** C3 (amended). [prepareCustomLog] sends the whole call to [parseString],
    with [options.separators], exactly when the text contains the separator
    configured in [options.separators.command] or contains the character
    [|]; otherwise the three layers of the options apply. *)
Theorem delegation_rule (text : string) (options : option log_options) :
  (has_command_marker text options ->
   prepareCustomLog text options = parseString text (separators_of options))
  /\ (~ has_command_marker text options ->
      prepareCustomLog text options = structured text options).
Proof.
  unfold prepareCustomLog. rewrite <- delegates_spec.
  destruct (delegates text options); split; intros H; congruence.
Qed.

Lemma delegation_rule_witness :
  prepareCustomLog "|c.red.X|" (only_all (color_only "green"))
  = parseString "|c.red.X|" None
  /\ prepareCustomLog "X" (only_all (color_only "green"))
     = structured "X" (only_all (color_only "green")).
Proof.
  split.
  - apply (proj1 (delegation_rule "|c.red.X|" (only_all (color_only "green")))).
    right. exists EmptyString, "c.red.X|". reflexivity.
  - apply (proj2 (delegation_rule "X" (only_all (color_only "green")))).
    intros M. apply delegates_spec in M. vm_compute in M. discriminate.
Defined.

(** ** Segments of the inline parser *)

(** *** The separators *)

Lemma separator_or_nonempty (default : string) (field : option string) :
  default <> EmptyString -> separator_or default field <> EmptyString.
Proof.
  intros D. destruct field as [[|c r]|]; simpl; [exact D | discriminate | exact D].
Qed.

Lemma commandSeparator_nonempty (separators : option separators_t) :
  commandSeparator_of separators <> EmptyString.
Proof.
  destruct separators as [s|]; simpl; [|discriminate].
  apply separator_or_nonempty. discriminate.
Qed.


(** *** The pieces of [split] are the fields *)











(** *** The key of a segment *)







(** *** What a segment adds *)

Lemma command_step_unrecognized (cs ps : string) (st : string * option string)
    (i : string) :
  recognized cs ps i = false -> command_step cs ps st i = Normal st.
Proof.
  unfold recognized, command_step. destruct st as [str lastColor].
  intros H. apply orb_false_iff in H as [H Hc].
  apply orb_false_iff in H as [Hi Hs]. now rewrite Hi, Hs, Hc.
Qed.










(** The case of the design document: the free text [ B ] is dropped.  A
    free text that starts with [s] is not: [see. you. later] runs as a
    style command of the unknown style [ you], which adds its payload. *)
Example free_text_dropped :
  Str.split "|c.red.A| B |s.bold.C|" "|" = [""; "c.red.A"; " B "; "s.bold.C"; ""]
  /\ is_command "." " B " = false
  /\ parseString "|c.red.A| B |s.bold.C|" None
     = Normal (String ESC "[31mA" ++ String ESC "[1;31mC" ++ String ESC "[22;31m"
               ++ reset)
  /\ parseString "|c.red.A| B |s.bold.C|" None
     = parseString "|c.red.A||s.bold.C|" None
  /\ parseString "see. you. later" None = Normal (" later" ++ reset).
Proof.
  repeat split; reflexivity.
Qed.

(** ** Named colours *)

Lemma find_absent {A : Type} (p : A -> bool) (l : list A) :
  (forall x, In x l -> p x = false) -> find p l = None.
Proof.
  induction l as [|a l IH]; intros H; simpl; [reflexivity|].
  rewrite (H a (or_introl eq_refl)). apply IH. intros x Hx. apply H. now right.
Qed.

Lemma find_first {A : Type} (p : A -> bool) (before : list A) (x : A)
    (rest : list A) :
  p x = true ->
  (forall y, In y before -> p y = false) ->
  find p (before ++ x :: rest) = Some x.
Proof.
  intros Hx. induction before as [|a before IH]; intros H; simpl.
  - now rewrite Hx.
  - rewrite (H a (or_introl eq_refl)). apply IH. intros y Hy. apply H. now right.
Qed.

Lemma includes_false (s p : string) :
  ~ occurs_in p s -> Str.includes s p = false.
Proof.
  intros H. destruct (Str.includes s p) eqn:E; [|reflexivity].
  apply includes_spec in E. contradiction.
Qed.

Lemma occurs_in_length (p s : string) :
  occurs_in p s -> (String.length p <= String.length s)%nat.
Proof.
  intros [a [b ->]]. rewrite !length_append. lia.
Qed.

Lemma color_names_length (name : string) (code : Z) :
  In (name, code) COLORS -> (3 <= String.length name)%nat.
Proof.
  unfold COLORS. simpl.
  intros H. repeat (destruct H as [H|H]; [inversion H; simpl; lia|]). contradiction.
Qed.

Lemma getColor_exact (text name : string) (code : Z) (b c : bool) :
  In (name, code) COLORS ->
  Str.toLowerCase text = name ->
  getColor text (named_options b c) = Normal (sgr (code + code_shift b c)).
Proof.
  intros HIn E.
  assert (L : String.length text = String.length name).
  { rewrite <- E. symmetry. apply length_toLowerCase. }
  unfold getColor, named_options, sgr, code_shift.
  cbn [bg contrast rgb is_some negb andb]. rewrite L, E.
  unfold COLORS in HIn. simpl in HIn.
  repeat (destruct HIn as [HIn|HIn];
          [inversion HIn; destruct b, c; reflexivity|]).
  contradiction.
Qed.

Lemma getColor_fallback (text : string) (b c : bool)
    (before : list (string * Z)) (name : string) (code : Z)
    (rest : list (string * Z)) :
  COLORS = (before ++ (name, code) :: rest)%list ->
  (forall n k, In (n, k) COLORS -> Str.toLowerCase text <> n) ->
  occurs_in name (Str.toLowerCase text) ->
  (forall n k, In (n, k) before -> ~ occurs_in n (Str.toLowerCase text)) ->
  getColor text (named_options b c) = Normal (sgr (code + code_shift b c)).
Proof.
  intros HC Hexact Hocc Hfirst.
  assert (L : (String.length text <? 3)%nat = false).
  { apply Nat.ltb_ge. rewrite <- length_toLowerCase.
    etransitivity; [|apply occurs_in_length; exact Hocc].
    apply (color_names_length name code). rewrite HC.
    apply in_or_app. right. now left. }
  unfold getColor, named_options, sgr, code_shift, find_key.
  cbn [bg contrast rgb is_some negb andb]. rewrite L.
  rewrite (find_absent (fun entry => String.eqb (fst entry) (Str.toLowerCase text))).
  - rewrite HC.
    rewrite (find_first (fun entry => Str.includes (Str.toLowerCase text) (fst entry))
               before (name, code) rest).
    + now rewrite andb_true_r.
    + apply includes_spec. exact Hocc.
    + intros [n k] Hy. apply includes_false. now apply (Hfirst n k).
  - intros [n k] Hx. simpl. apply String.eqb_neq. intros E.
    apply (Hexact n k Hx). now symmetry.
Qed.

Lemma getColor_none (text : string) (b c : bool) :
  (forall n k, In (n, k) COLORS -> ~ occurs_in n (Str.toLowerCase text)) ->
  getColor text (named_options b c) = Normal EmptyString.
Proof.
  intros H. unfold getColor, named_options, find_key.
  cbn [bg contrast rgb is_some negb andb].
  destruct (String.length text <? 3)%nat; [reflexivity|].
  rewrite (find_absent (fun entry => String.eqb (fst entry) (Str.toLowerCase text))).
  - rewrite (find_absent (fun entry => Str.includes (Str.toLowerCase text) (fst entry)));
      [reflexivity|].
    intros [n k] Hx. apply includes_false. now apply (H n k).
  - intros [n k] Hx. simpl. apply String.eqb_neq. intros E.
    apply (H n k Hx). exists EmptyString, EmptyString.
    simpl. now rewrite append_nil_r, E.
Qed.

(** C8. A named colour is looked up in [getColor] by the lowercased token:
    a palette name equal to it gives that colour; when none is equal, the
    first palette name, in the order of the table, that occurs in it gives
    the colour; when no palette name occurs in it the result is empty.  So
    [red] and [RED] resolve alike. *)
Theorem named_color_lookup (text : string) (b c : bool) :
  (forall name code,
      In (name, code) COLORS ->
      Str.toLowerCase text = name ->
      getColor text (named_options b c) = Normal (sgr (code + code_shift b c)))
  /\ (forall before name code rest,
        COLORS = (before ++ (name, code) :: rest)%list ->
        (forall n k, In (n, k) COLORS -> Str.toLowerCase text <> n) ->
        occurs_in name (Str.toLowerCase text) ->
        (forall n k, In (n, k) before -> ~ occurs_in n (Str.toLowerCase text)) ->
        getColor text (named_options b c) = Normal (sgr (code + code_shift b c)))
  /\ ((forall n k, In (n, k) COLORS -> ~ occurs_in n (Str.toLowerCase text)) ->
      getColor text (named_options b c) = Normal EmptyString)
  /\ getColor "red" (named_options false false)
     = getColor "RED" (named_options false false)
  /\ getColor "red" None = getColor "RED" None.
Proof.
  split; [|split; [|split; [|split]]].
  - intros name code. apply getColor_exact.
  - intros before name code rest. apply getColor_fallback.
  - apply getColor_none.
  - reflexivity.
  - reflexivity.
Qed.

(** Decides a fact about every entry of a concrete list of names. *)
Ltac each_entry H :=
  simpl in H;
  repeat (destruct H as [H|H];
          [ inversion H; subst;
            first [ discriminate
                  | rewrite <- includes_spec; vm_compute; discriminate ]
          | ]);
  try contradiction.

Lemma named_color_lookup_witness :
  getColor "RED" (named_options false false) = Normal (sgr 31)
  /\ getColor "DarkRed" (named_options true false) = Normal (sgr 41)
  /\ getColor "pink" (named_options false true) = Normal EmptyString.
Proof.
  split; [|split].
  - apply (proj1 (named_color_lookup "RED" false false) "red" 31).
    + simpl. auto.
    + reflexivity.
  - apply (proj1 (proj2 (named_color_lookup "DarkRed" true false))
             [("black", 30)] "red" 31
             [("green", 32); ("yellow", 33); ("blue", 34); ("magenta", 35);
              ("cyan", 36); ("white", 37); ("reset", 0)]).
    + reflexivity.
    + intros n k H. each_entry H.
    + exists "dark", EmptyString. reflexivity.
    + intros n k H. each_entry H.
  - apply (proj1 (proj2 (proj2 (named_color_lookup "pink" false true)))).
    intros n k H. each_entry H.
Defined.

(** ** Index markers *)

Lemma trimEnd_head (c : ascii) (r : string) :
  Num.is_space c = false ->
  exists r', ToNumber.trimEnd (String c r) = String c r'.
Proof.
  intros H. simpl. destruct (ToNumber.trimEnd r).
  - rewrite H. now exists EmptyString.
  - now eexists.
Qed.

Lemma classify_numeric_head (c : ascii) (r : string) :
  ToNumber.classify (String c r) <> ToNumber.IsNaN -> numeric_head c = true.
Proof.
  unfold numeric_head. intros H.
  destruct (Num.is_space c) eqn:Sp; [reflexivity|].
  destruct (Str.is_digit c) eqn:Dg; [reflexivity|].
  destruct (Ascii.eqb c ".") eqn:Dot; [reflexivity|].
  destruct (Ascii.eqb c "+") eqn:Pl; [reflexivity|].
  destruct (Ascii.eqb c "-") eqn:Mi; [reflexivity|].
  destruct (Ascii.eqb c "I") eqn:In; [reflexivity|].
  exfalso. apply H. clear H.
  unfold ToNumber.classify, ToNumber.trim.
  cbn [Num.trimStart]. rewrite Sp.
  destruct (trimEnd_head c r Sp) as [r' ->].
  cbn [ToNumber.is_empty].
  assert (Z0 : Ascii.eqb c "0" = false).
  { destruct (Ascii.eqb_spec c "0") as [->|]; [discriminate Dg | reflexivity]. }
  assert (ND : ToNumber.non_decimal (String c r') = None).
  { unfold ToNumber.non_decimal. destruct r'; [reflexivity|]. now rewrite Z0. }
  rewrite ND. unfold Num.split_sign. rewrite Mi, Pl.
  unfold ToNumber.unsigned_decimal.
  destruct (String.eqb_spec (String c r') "Infinity") as [E|_].
  { inversion E. subst c. discriminate In. }
  cbn [ToNumber.span]. rewrite Dg.
  unfold ToNumber.fraction. rewrite Dot. reflexivity.
Qed.

Lemma lower_numeric_head (c : ascii) :
  numeric_head c = true ->
  numeric_head (Str.lower_char c) = true \/ Str.lower_char c = "i"%char.
Proof.
  destruct c as [[] [] [] [] [] [] [] []]; vm_compute; intros H;
    first [now left | now right | discriminate H].
Qed.

(** A string whose lowercase form starts with a letter other than [i] is
    not numeric. *)
Lemma classify_word (reg : string) (x : ascii) (rest : string) :
  Str.toLowerCase reg = String x rest ->
  numeric_head x = false ->
  x <> "i"%char ->
  ToNumber.classify reg = ToNumber.IsNaN.
Proof.
  intros E N I. destruct reg as [|c r]; [discriminate|].
  simpl in E. inversion E as [[Hc Hr]].
  destruct (ToNumber.classify (String c r)) eqn:K; [reflexivity| | |].
  all: assert (H : numeric_head c = true)
         by (apply (classify_numeric_head c r); rewrite K; discriminate).
  all: destruct (lower_numeric_head c H) as [L|L]; rewrite Hc in L; congruence.
Qed.

Lemma alias_not_numeric (reg : string) :
  In (Str.toLowerCase reg) (down_aliases ++ up_aliases) ->
  ToNumber.classify reg = ToNumber.IsNaN /\ ToNumber.is_empty reg = false.
Proof.
  intros H. split.
  - simpl in H.
    repeat (destruct H as [H|H];
            [symmetry in H; apply (classify_word reg _ _ H);
             [reflexivity | discriminate]|]).
    contradiction.
  - destruct reg; [|reflexivity]. simpl in H.
    repeat (destruct H as [H|H]; [discriminate|]). contradiction.
Qed.

Lemma mem_spec (k : string) (l : list string) : mem k l = true <-> In k l.
Proof.
  unfold mem. rewrite existsb_exists. split.
  - intros [x [Hx E]]. apply String.eqb_eq in E. now subst.
  - intros H. exists k. split; [exact H | apply String.eqb_refl].
Qed.

Lemma mem_false (k : string) (l : list string) : ~ In k l -> mem k l = false.
Proof.
  intros H. destruct (mem k l) eqn:E; [|reflexivity].
  apply mem_spec in E. contradiction.
Qed.

Lemma toString_head (z : Z) :
  exists c r, Num.toString z = String c r
              /\ (Str.is_digit c = true \/ c = "-"%char).
Proof.
  assert (U : forall d, exists c r,
               NilZero.string_of_uint d = String c r /\ Str.is_digit c = true).
  { intros d. destruct d; simpl; eexists _, _; split; reflexivity. }
  unfold Num.toString. destruct (Z.to_int z) as [d|d]; simpl.
  - destruct (U d) as [c [r [E D]]]. exists c, r. auto.
  - eexists _, _. split; [reflexivity | now right].
Qed.

Lemma number_is_no_alias (z : Z) :
  mem (Str.toLowerCase (Num.toString z)) down_aliases = false
  /\ mem (Str.toLowerCase (Num.toString z)) up_aliases = false.
Proof.
  destruct (toString_head z) as [c [r [-> H]]]. simpl Str.toLowerCase.
  assert (L : forall a : string,
             In a (down_aliases ++ up_aliases) ->
             String (Str.lower_char c) (Str.toLowerCase r) <> a).
  { intros a Ha E.
    assert (N : numeric_head (Str.lower_char c) = true \/ Str.lower_char c = "i"%char).
    { apply lower_numeric_head. unfold numeric_head.
      destruct H as [H| ->]; [rewrite H; apply orb_true_iff; left;
                              apply orb_true_iff; left; apply orb_true_iff; left;
                              apply orb_true_iff; left; apply orb_true_r
                             | reflexivity]. }
    simpl in Ha.
    repeat (destruct Ha as [Ha|Ha];
            [subst a; inversion E as [[Hc Hr]]; rewrite Hc in N;
             destruct N as [N|N]; discriminate N|]).
    contradiction. }
  split; apply mem_false; intros Hin.
  - apply (L _ (in_or_app _ _ _ (or_introl Hin)) eq_refl).
  - apply (L _ (in_or_app _ _ _ (or_intror Hin)) eq_refl).
Qed.

Lemma halving_down_alias (text reg : string) (styles : list jsval) :
  In (Str.toLowerCase reg) down_aliases ->
  halving text (RegStr reg) styles = index_span INDEX_down text styles.
Proof.
  intros H.
  destruct (alias_not_numeric reg (in_or_app _ _ _ (or_introl H))) as [_ E].
  unfold halving. cbn [reg_falsy reg_text]. rewrite E.
  apply mem_spec in H. now rewrite H.
Qed.

Lemma halving_up_alias (text reg : string) (styles : list jsval) :
  In (Str.toLowerCase reg) up_aliases ->
  halving text (RegStr reg) styles = index_span INDEX_up text styles.
Proof.
  intros H.
  destruct (alias_not_numeric reg (in_or_app _ _ _ (or_intror H))) as [K E].
  unfold halving. cbn [reg_falsy reg_text reg_sign]. rewrite E, K.
  assert (D : mem (Str.toLowerCase reg) down_aliases = false).
  { simpl in H.
    repeat (destruct H as [H|H]; [rewrite <- H; reflexivity|]). contradiction. }
  apply mem_spec in H. now rewrite D, H.
Qed.

Lemma halving_number (text : string) (n : Z) (styles : list jsval) :
  halving text (RegNum n) styles
  = if n <? 0 then index_span INDEX_down text styles
    else if n =? 0 then text
    else index_span INDEX_up text styles.
Proof.
  unfold halving. cbn [reg_falsy reg_text reg_sign].
  destruct (number_is_no_alias n) as [D U]. rewrite D, U.
  destruct (Z.ltb_spec n 0), (Z.eqb_spec n 0); try lia; reflexivity.
Qed.

Lemma numeric_is_no_alias (reg : string) :
  ToNumber.classify reg <> ToNumber.IsNaN ->
  mem (Str.toLowerCase reg) down_aliases = false
  /\ mem (Str.toLowerCase reg) up_aliases = false.
Proof.
  intros H. split; apply mem_false; intros Hin; apply H.
  - apply (alias_not_numeric reg (in_or_app _ _ _ (or_introl Hin))).
  - apply (alias_not_numeric reg (in_or_app _ _ _ (or_intror Hin))).
Qed.

Lemma halving_numeric_string (text reg : string) (styles : list jsval) :
  halving text (RegStr reg) styles
  = match ToNumber.classify reg with
    | ToNumber.Negative => index_span INDEX_down text styles
    | ToNumber.Positive => index_span INDEX_up text styles
    | ToNumber.Zero => text
    | ToNumber.IsNaN => halving text (RegStr reg) styles
    end.
Proof.
  destruct (ToNumber.classify reg) eqn:K; [reflexivity| | |].
  all: destruct (numeric_is_no_alias reg) as [D U]; [rewrite K; discriminate|].
  all: unfold halving; cbn [reg_falsy reg_text reg_sign]; rewrite K, D, U.
  all: destruct reg; [discriminate K || reflexivity | reflexivity].
Qed.

Lemma halving_unrecognized (text reg : string) (styles : list jsval) :
  ~ In (Str.toLowerCase reg) (down_aliases ++ up_aliases) ->
  ToNumber.classify reg = ToNumber.IsNaN \/ ToNumber.classify reg = ToNumber.Zero ->
  halving text (RegStr reg) styles = text.
Proof.
  intros N K. unfold halving. cbn [reg_falsy reg_text reg_sign].
  destruct (ToNumber.is_empty reg); [reflexivity|].
  rewrite (mem_false _ down_aliases), (mem_false _ up_aliases).
  - destruct K as [-> | ->]; reflexivity.
  - intros H. apply N, in_or_app. now right.
  - intros H. apply N, in_or_app. now left.
Qed.

(** C10. In [halving] the names [superscript], [super] and [sup] select the
    code 73 of the lower index, as [down], [under], [bottom] and [lower]
    do, and the names [subscript] and [sub] select the code 74 of the upper
    index, as [up], [over], [top] and [upper] do, in any case of the
    letters.  A number, or a string that reads as one, selects by its sign:
    74 when positive, 73 when negative.  Zero, a missing argument and a
    string that is neither a name nor a number leave the text as it is. *)
Theorem index_direction (text : string) (styles : list jsval) :
  (forall reg,
      In (Str.toLowerCase reg)
        ["superscript"; "super"; "sup"; "down"; "under"; "bottom"; "lower"] ->
      halving text (RegStr reg) styles = index_span 73 text styles)
  /\ (forall reg,
        In (Str.toLowerCase reg)
          ["subscript"; "sub"; "up"; "over"; "top"; "upper"] ->
        halving text (RegStr reg) styles = index_span 74 text styles)
  /\ (forall n, 0 < n -> halving text (RegNum n) styles = index_span 74 text styles)
  /\ (forall n, n < 0 -> halving text (RegNum n) styles = index_span 73 text styles)
  /\ (forall reg,
        ToNumber.classify reg = ToNumber.Positive ->
        halving text (RegStr reg) styles = index_span 74 text styles)
  /\ (forall reg,
        ToNumber.classify reg = ToNumber.Negative ->
        halving text (RegStr reg) styles = index_span 73 text styles)
  /\ halving text (RegNum 0) styles = text
  /\ halving text RegUndef styles = text
  /\ (forall reg,
        ~ In (Str.toLowerCase reg) (down_aliases ++ up_aliases) ->
        ToNumber.classify reg = ToNumber.IsNaN
        \/ ToNumber.classify reg = ToNumber.Zero ->
        halving text (RegStr reg) styles = text).
Proof.
  repeat split.
  - intros reg H. apply halving_down_alias. simpl in H |- *. tauto.
  - intros reg H. apply halving_up_alias. simpl in H |- *. tauto.
  - intros n H. rewrite halving_number.
    destruct (Z.ltb_spec n 0), (Z.eqb_spec n 0); try lia; reflexivity.
  - intros n H. rewrite halving_number.
    destruct (Z.ltb_spec n 0); try lia; reflexivity.
  - intros reg H. rewrite halving_numeric_string, H. reflexivity.
  - intros reg H. rewrite halving_numeric_string, H. reflexivity.
  - intros reg. apply halving_unrecognized.
Qed.

Lemma index_direction_witness :
  halving "2" (RegStr "Sup") [VStr "31"] = index_span 73 "2" [VStr "31"]
  /\ halving "2" (RegStr "SUB") [] = index_span 74 "2" []
  /\ halving "2" (RegNum 2) [] = index_span 74 "2" []
  /\ halving "2" (RegNum (-1)) [] = index_span 73 "2" []
  /\ halving "2" (RegStr "1.5") [] = index_span 74 "2" []
  /\ halving "2" (RegStr "-1") [] = index_span 73 "2" []
  /\ halving "2" (RegStr "sideways") [] = "2".
Proof.
  split; [|split; [|split; [|split; [|split; [|split]]]]].
  - apply (proj1 (index_direction "2" [VStr "31"])). simpl. tauto.
  - apply (proj1 (proj2 (index_direction "2" []))). simpl. tauto.
  - apply (proj1 (proj2 (proj2 (index_direction "2" [])))). lia.
  - apply (proj1 (proj2 (proj2 (proj2 (index_direction "2" []))))). lia.
  - apply (proj1 (proj2 (proj2 (proj2 (proj2 (index_direction "2" [])))))).
    reflexivity.
  - apply (proj1 (proj2 (proj2 (proj2 (proj2 (proj2 (index_direction "2" []))))))).
    reflexivity.
  - apply (proj2 (proj2 (proj2 (proj2 (proj2 (proj2 (proj2 (proj2
             (index_direction "2" []))))))))).
    + simpl. intros H. repeat (destruct H as [H|H]; [discriminate H|]). exact H.
    + left. reflexivity.
Defined.

(** The markers of the aliases, written out. *)
Example index_examples :
  halving "2" (RegStr "sup") [] = String ESC "[73m2" ++ String ESC "[75m"
  /\ halving "2" (RegStr "superscript") [] = halving "2" (RegStr "down") []
  /\ halving "2" (RegStr "sub") [] = String ESC "[74m2" ++ String ESC "[75m"
  /\ halving "2" (RegStr "subscript") [] = halving "2" (RegStr "up") []
  /\ parseString "|i.sup.2|" None
     = Normal (String ESC "[73m2" ++ String ESC "[75m" ++ reset).
Proof.
  repeat split; reflexivity.
Qed.

(** ** Numeric colours *)

Lemma match_run (r : string) :
  all_chars Str.is_digit r = true ->
  forall cur s, match_digit_runs cur (r ++ s) = match_digit_runs (cur ++ r) s.
Proof.
  induction r as [|c r IH]; intros H cur s.
  - now rewrite append_nil_r.
  - simpl in H. apply andb_true_iff in H as [Hc Hr].
    simpl. rewrite Hc, (IH Hr). unfold Str.snoc.
    now rewrite append_assoc.
Qed.

Lemma match_delimiter (d : string) :
  is_delimiter d ->
  forall s, digit_runs (d ++ s) = digit_runs s.
Proof.
  unfold is_delimiter. induction d as [|c d IH]; intros H s; [reflexivity|].
  simpl in H. apply andb_true_iff in H as [Hc Hd].
  apply negb_true_iff in Hc. unfold digit_runs. simpl. rewrite Hc. simpl.
  now apply IH.
Qed.

Lemma match_run_end (cur s : string) :
  cur <> EmptyString ->
  no_digit_ahead s ->
  filter (fun i => negb (ToNumber.is_empty i)) (match_digit_runs cur s)
  = cur :: digit_runs s.
Proof.
  intros N A. destruct cur as [|x cur]; [contradiction|].
  destruct s as [|c s]; [reflexivity|].
  simpl in A. unfold digit_runs. simpl. now rewrite A.
Qed.

Lemma interleave_no_digit_ahead (blocks : list (string * string)) (last : string) :
  Forall (fun b => is_delimiter (fst b) /\ is_run (snd b)) blocks ->
  Forall (fun b => fst b <> EmptyString) blocks ->
  is_delimiter last ->
  no_digit_ahead (interleave blocks last).
Proof.
  intros W N L. destruct blocks as [|[d r] rest].
  - destruct last as [|c last]; [exact I|].
    simpl. unfold is_delimiter in L. simpl in L.
    apply andb_true_iff in L as [L _]. now apply negb_true_iff.
  - inversion W as [|? ? [D _] _]. inversion N as [|? ? E _]. simpl in D, E.
    destruct d as [|c d]; [contradiction|].
    simpl. unfold is_delimiter in D. simpl in D.
    apply andb_true_iff in D as [D _]. now apply negb_true_iff.
Qed.

(** The digit runs [parseRGB] keeps are the runs of the blocks, in order. *)
Lemma digit_runs_interleave (blocks : list (string * string)) (last : string) :
  well_separated blocks last ->
  digit_runs (interleave blocks last) = map snd blocks.
Proof.
  unfold well_separated. induction blocks as [|[d r] rest IH]; intros [W [N L]].
  - simpl. rewrite <- (append_nil_r last). now rewrite (match_delimiter last L).
  - inversion W as [|? ? [D [R R0]] W']. simpl in D, R, R0, N. subst.
    simpl. rewrite (match_delimiter d D). unfold digit_runs at 1.
    rewrite (match_run r R). simpl append.
    rewrite match_run_end.
    + f_equal. apply IH. split; [exact W'|]. split; [|exact L].
      destruct rest; [constructor | now inversion N].
    + exact R0.
    + apply interleave_no_digit_ahead; assumption.
Qed.

Lemma digit_value_digit (c : ascii) :
  Str.is_digit c = true ->
  exists d, Num.digit_value 10 c = Some d /\ 0 <= d
            /\ Num.is_space c = false
            /\ Ascii.eqb c "-" = false /\ Ascii.eqb c "+" = false.
Proof.
  destruct c as [[] [] [] [] [] [] [] []]; vm_compute; intros H;
    try discriminate H; eexists; repeat split; discriminate.
Qed.

(** *** What [parseInt] reads *)

Lemma digit_value_range (radix : Z) (c : ascii) (d : Z) :
  Num.digit_value radix c = Some d -> 0 <= d < radix.
Proof.
  unfold Num.digit_value.
  set (n := Z.of_nat (Str.code c)).
  destruct ((48 <=? n) && (n <=? 57))%bool eqn:A.
  - apply andb_true_iff in A as [A _]. apply Z.leb_le in A.
    destruct (n - 48 <? radix) eqn:B; [|discriminate].
    apply Z.ltb_lt in B. intros E. inversion E. lia.
  - destruct ((97 <=? n) && (n <=? 102))%bool eqn:A2.
    + apply andb_true_iff in A2 as [A2 _]. apply Z.leb_le in A2.
      destruct (n - 87 <? radix) eqn:B; [|discriminate].
      apply Z.ltb_lt in B. intros E. inversion E. lia.
    + destruct ((65 <=? n) && (n <=? 70))%bool eqn:A3; [|discriminate].
      apply andb_true_iff in A3 as [A3 _]. apply Z.leb_le in A3.
      destruct (n - 55 <? radix) eqn:B; [|discriminate].
      apply Z.ltb_lt in B. intros E. inversion E. lia.
Qed.

(** The integer that digits write is below the power of the radix that
    their number gives. *)
Lemma parse_digits_bound (radix : Z) (s : string) :
  1 <= radix ->
  forall (a v : Z) (acc : option Z),
    0 <= a ->
    acc = None /\ a = 0 \/ acc = Some a ->
    Num.parse_digits radix acc s = Some v ->
    0 <= v /\ v + 1 <= (a + 1) * radix ^ Z.of_nat (String.length s).
Proof.
  intros R. induction s as [|c r IH]; intros a v acc A C E.
  - simpl in E. subst acc. destruct C as [[C _]|C]; [discriminate|].
    inversion C. subst. simpl. lia.
  - assert (P : 0 < radix ^ Z.of_nat (String.length r))
      by (apply Z.pow_pos_nonneg; lia).
    cbn [String.length]. rewrite Nat2Z.inj_succ, Z.pow_succ_r by lia.
    cbn [Num.parse_digits] in E.
    destruct (Num.digit_value radix c) as [d|] eqn:D.
    + apply digit_value_range in D.
      apply (IH (a * radix + d)) in E; [|nia|].
      * destruct E as [E0 E]. split; [exact E0|]. nia.
      * right. destruct C as [[-> ->]| ->]; reflexivity.
    + subst acc. destruct C as [[C _]|C]; [discriminate|].
      inversion C. subst. split; [exact A|]. nia.
Qed.

(** Rounding to the nearest number at most doubles an integer. *)
Lemma round_double_le (v : Z) : 0 <= v -> 0 <= Num.round_double v <= 2 * v.
Proof.
  intros V. unfold Num.round_double.
  destruct (v <? 2 ^ 53) eqn:E; [lia|]. apply Z.ltb_ge in E.
  assert (L : 53 <= Z.log2 v).
  { rewrite <- (Z.log2_pow2 53) by lia. apply Z.log2_le_mono. exact E. }
  set (e := Z.log2 v - 52).
  assert (P : 0 < 2 ^ e) by (apply Z.pow_pos_nonneg; lia).
  assert (B : 2 ^ e <= v).
  { transitivity (2 ^ Z.log2 v).
    - apply Z.pow_le_mono_r; lia.
    - apply Z.log2_spec. lia. }
  assert (M := Z.mul_div_le v (2 ^ e) P).
  assert (Q : 1 <= v / 2 ^ e) by (apply Z.div_le_lower_bound; lia).
  destruct ((2 ^ (e - 1) <? v mod 2 ^ e)
            || ((v mod 2 ^ e =? 2 ^ (e - 1)) && Z.odd (v / 2 ^ e)))%bool; nia.
Qed.

Lemma round_double_exact (v : Z) : v < 2 ^ 53 -> Num.round_double v = v.
Proof.
  intros V. unfold Num.round_double.
  now destruct (Z.ltb_spec v (2 ^ 53)); [|lia].
Qed.

Lemma to_number_finite (negative : bool) (v : Z) :
  0 <= v -> 2 * v < 2 ^ 1024 ->
  Num.to_number negative v
  = Int (if negative then - Num.round_double v else Num.round_double v).
Proof.
  intros V B. unfold Num.to_number.
  destruct (Z.ltb_spec (Num.round_double v) (2 ^ 1024)) as [|H]; [reflexivity|].
  pose proof (round_double_le v V). lia.
Qed.

(** Below 2^53 [parseInt] gives the integer that the digits write. *)
Lemma to_number_exact (negative : bool) (v : Z) :
  0 <= v < 2 ^ 53 ->
  Num.to_number negative v = Int (if negative then - v else v).
Proof.
  intros V. rewrite to_number_finite; [|lia|].
  - now rewrite round_double_exact by lia.
  - apply Z.lt_trans with (2 * 2 ^ 53); [lia|]. reflexivity.
Qed.

Lemma length_trimStart (s : string) :
  (String.length (Num.trimStart s) <= String.length s)%nat.
Proof.
  induction s as [|c r IH]; [reflexivity|].
  cbn [Num.trimStart]. destruct (Num.is_space c); simpl in *; lia.
Qed.

Lemma length_split_sign (s : string) :
  (String.length (snd (Num.split_sign s)) <= String.length s)%nat.
Proof.
  destruct s as [|c r]; [reflexivity|]. unfold Num.split_sign.
  destruct (Ascii.eqb c "-"); [simpl; lia|].
  destruct (Ascii.eqb c "+"); simpl; lia.
Qed.

(** A text of at most 22 characters is not read as an infinity. *)
Lemma parseInt_short (s : string) :
  (String.length s <= 22)%nat ->
  Num.parseInt s 10 = NaN \/ exists z, Num.parseInt s 10 = Int z.
Proof.
  intros L. unfold Num.parseInt.
  pose proof (length_split_sign (Num.trimStart s)) as L2.
  pose proof (length_trimStart s) as L1.
  destruct (Num.split_sign (Num.trimStart s)) as [negative s2].
  change (10 =? 16) with false. cbv iota. simpl in L2.
  destruct (Num.parse_digits 10 None s2) as [v|] eqn:P; [right|now left].
  apply (parse_digits_bound 10 s2 ltac:(lia) 0 v None) in P; [|lia|now left].
  destruct P as [P0 P].
  assert (B : 10 ^ Z.of_nat (String.length s2) <= 10 ^ 22)
    by (apply Z.pow_le_mono_r; lia).
  eexists. apply to_number_finite; [exact P0|].
  apply Z.lt_trans with (2 * 10 ^ 22); [lia|]. reflexivity.
Qed.

Lemma toString_abs (z : Z) :
  (String.length (Num.toString z)
   <= S (String.length (Num.toString (Z.abs z))))%nat.
Proof.
  unfold Num.toString.
  destruct z; cbn [Z.abs Z.to_int NilZero.string_of_int String.length]; lia.
Qed.

(** [parseInt] of a number is a number again, never an infinity. *)
Lemma parseInt_num_finite (n : num) :
  Num.parseInt_num n = NaN \/ exists z, Num.parseInt_num n = Int z.
Proof.
  destruct n as [|z|[|]]; try (left; reflexivity).
  unfold Num.parseInt_num.
  destruct (Nat.leb_spec (String.length (Num.toString (Z.abs z))) 21) as [L|_].
  - apply parseInt_short. pose proof (toString_abs z). lia.
  - right. eexists. reflexivity.
Qed.

(** The components of an array are integers within the remainders of
    256. *)
Lemma array_component (val : num) :
  exists w, wrap256 (Num.parseInt_num val) = Int w /\ -256 < w < 256.
Proof.
  destruct (parseInt_num_finite val) as [->|[z ->]].
  - exists 0. split; [reflexivity | lia].
  - exists (Z.rem z 256). split; [reflexivity|].
    pose proof (Z.rem_bound_abs z 256 ltac:(lia)). lia.
Qed.

Lemma parseRGB_array (arr : list num) :
  parseRGB (RgbArray arr)
  = Some (map (fun val => wrap256 (Num.parseInt_num val)) (firstn 3 arr)).
Proof.
  reflexivity.
Qed.

Lemma parseRGB_array_ints (arr : list num) :
  exists comps,
    parseRGB (RgbArray arr) = Some (map Int comps)
    /\ List.length comps = List.length (firstn 3 arr)
    /\ Forall (fun w => -256 < w < 256) comps.
Proof.
  rewrite parseRGB_array.
  induction (firstn 3 arr) as [|val l [comps [E [L F]]]].
  - exists []. repeat split. constructor.
  - destruct (array_component val) as [w [W B]].
    exists (w :: comps). cbn [map List.length]. rewrite W.
    inversion E as [E']. rewrite E'. repeat split; [now rewrite L | now constructor].
Qed.

Lemma join_numbers_ints (sep : string) (l : list Z) :
  join_numbers sep (map Int l) = join_nums sep l.
Proof.
  unfold join_numbers, join_nums. now rewrite map_map.
Qed.

(** *** The components of a colour text *)

Lemma digit_value_decimal (c : ascii) :
  Str.is_digit c = true ->
  Num.digit_value 10 c = Some (Z.of_nat (Str.code c) - 48)
  /\ 0 <= Z.of_nat (Str.code c) - 48.
Proof.
  destruct c as [[] [] [] [] [] [] [] []]; vm_compute; intros H;
    try discriminate H; (split; [reflexivity | discriminate]).
Qed.

(** [parseInt] reads the digits of a run into the integer they write. *)
Lemma parse_digits_value (r : string) :
  all_chars Str.is_digit r = true ->
  0 <= decimal_value r
  /\ forall a,
       Num.parse_digits 10 (Some a) r
       = Some (a * 10 ^ Z.of_nat (String.length r) + decimal_value r).
Proof.
  induction r as [|c r IH]; intros H.
  - split; [reflexivity|]. intros a. simpl. f_equal. lia.
  - simpl in H. apply andb_true_iff in H as [Hc Hr].
    destruct (digit_value_decimal c Hc) as [E Hd].
    destruct (IH Hr) as [V P].
    assert (T : 0 <= 10 ^ Z.of_nat (String.length r))
      by (apply Z.pow_nonneg; lia).
    split; [cbn [decimal_value]; nia|].
    intros a. cbn [Num.parse_digits decimal_value String.length].
    rewrite E, P, Nat2Z.inj_succ, Z.pow_succ_r by lia. f_equal. ring.
Qed.

(** [parseInt] of a run is the number of the integer it writes. *)
Lemma parseInt_run_number (r : string) :
  is_run r ->
  Num.parseInt r 10 = Num.to_number false (decimal_value r)
  /\ 0 <= decimal_value r.
Proof.
  intros [H N]. destruct r as [|c r]; [contradiction|].
  destruct (parse_digits_value _ H) as [V _]. split; [|exact V].
  simpl in H. apply andb_true_iff in H as [Hc Hr].
  destruct (digit_value_digit c Hc) as [d [_ [_ [Sp [Mi Pl]]]]].
  destruct (digit_value_decimal c Hc) as [E Hd].
  destruct (parse_digits_value r Hr) as [_ P].
  unfold Num.parseInt.
  cbn [Num.trimStart]. rewrite Sp. unfold Num.split_sign. rewrite Mi, Pl.
  change (10 =? 16) with false. cbn [Num.parse_digits]. now rewrite E, P.
Qed.

(** Below 2^53 it is that integer. *)
Lemma parseInt_run (r : string) :
  is_run r ->
  decimal_value r < 2 ^ 53 ->
  Num.parseInt r 10 = Int (decimal_value r) /\ 0 <= decimal_value r.
Proof.
  intros R B. destruct (parseInt_run_number r R) as [-> V].
  split; [|exact V]. now apply (to_number_exact false).
Qed.

Lemma small_number_roundtrip (v : Z) :
  0 <= v < 256 -> Num.parseInt_num (Int v) = Int v.
Proof.
  intros H.
  assert (A : forallb
                (fun n => match Num.parseInt_num (Int (Z.of_nat n)) with
                          | Int w => w =? Z.of_nat n
                          | _ => false
                          end) (seq 0 256) = true) by (vm_compute; reflexivity).
  rewrite forallb_forall in A.
  specialize (A (Z.to_nat v)). rewrite Z2Nat.id in A by lia.
  assert (I : In (Z.to_nat v) (seq 0 256)) by (apply in_seq; lia).
  specialize (A I). destruct (Num.parseInt_num (Int v)); try discriminate.
  apply Z.eqb_eq in A. now subst.
Qed.

Lemma parseRGB_array_small (comps : list Z) :
  (List.length comps <= 3)%nat ->
  Forall (fun v => 0 <= v < 256) comps ->
  parseRGB (RgbArray (map Int comps)) = Some (map Int comps).
Proof.
  intros L F. unfold parseRGB. f_equal.
  rewrite firstn_all2 by (now rewrite length_map).
  rewrite map_map. apply map_ext_in. intros v Hv. rewrite Forall_forall in F.
  rewrite (small_number_roundtrip v (F v Hv)). simpl. f_equal.
  apply Z.rem_small. now apply F.
Qed.

Lemma Forall_firstn {A : Type} (P : A -> Prop) (n : nat) (l : list A) :
  Forall P l -> Forall P (firstn n l).
Proof.
  intros H. revert n. induction H as [|a l Ha _ IH]; intros [|n]; simpl;
    constructor; auto.
Qed.

Lemma components_small (blocks : list (string * string)) :
  (List.length (components blocks) <= 3)%nat
  /\ Forall (fun v => 0 <= v < 256) (components blocks).
Proof.
  unfold components. split.
  - rewrite length_map. apply firstn_le_length.
  - apply Forall_forall. intros v Hv. apply in_map_iff in Hv as [r [<- _]].
    apply Z.mod_pos_bound. lia.
Qed.

(** [parseRGB] of a text reads the first three of its digit runs. *)
Lemma parseRGB_string (s : string) :
  s <> EmptyString ->
  parseRGB (RgbString s)
  = Some (map wrap256 (map (fun i => Num.parseInt i 10) (firstn 3 (digit_runs s)))).
Proof.
  destruct s; [contradiction | reflexivity].
Qed.

Lemma parseRGB_interleave (blocks : list (string * string)) (last : string) :
  well_separated blocks last ->
  interleave blocks last <> EmptyString ->
  exact_runs blocks ->
  extraction_as_documented blocks last.
Proof.
  intros W N X. unfold extraction_as_documented.
  rewrite (parseRGB_string _ N), (digit_runs_interleave blocks last W). f_equal.
  unfold components. rewrite !map_map. apply map_ext_in. intros r Hr.
  assert (R : is_run r).
  { destruct W as [W _].
    assert (F : Forall is_run (firstn 3 (map snd blocks))).
    { apply Forall_firstn, Forall_forall. intros x Hx.
      apply in_map_iff in Hx as [b [<- Hb]].
      rewrite Forall_forall in W. now apply W. }
    rewrite Forall_forall in F. now apply F. }
  unfold exact_runs in X. rewrite Forall_forall in X.
  destruct (parseInt_run r R (X r Hr)) as [-> P]. simpl. f_equal.
  apply Z.rem_mod_nonneg; lia.
Qed.

Lemma getColor_rgb (text : string) (background bright : bool) (comps : list Z) :
  (List.length comps <= 3)%nat ->
  Forall (fun v => 0 <= v < 256) comps ->
  getColor text (rgb_options background bright comps)
  = Normal (prefix
            ++ join_nums ";"
                 match comps with
                 | [i] => [selector background; 5; i]
                 | [c1; c2] => [selector background; 2; c1; c2; 0]
                 | _ => selector background :: 2 :: comps
                 end
            ++ postfix).
Proof.
  intros L F. unfold getColor, rgb_options, selector.
  cbn [bg contrast rgb is_some negb andb].
  rewrite (parseRGB_array_small comps L F), andb_false_r, Z.add_0_r.
  rewrite <- join_numbers_ints.
  destruct comps as [|a [|b [|c [|d comps]]]]; try reflexivity.
  simpl in L. lia.
Qed.

(** What [parseRGB] gives for any text of runs and delimiters that is not
    empty: of each of the first three runs, the number that [parseInt]
    makes of the integer it writes, reduced by [wrap256]. *)
Lemma parseRGB_runs (blocks : list (string * string)) (last : string) :
  well_separated blocks last ->
  interleave blocks last <> EmptyString ->
  parseRGB (RgbString (interleave blocks last))
  = Some (map (fun r => wrap256 (Num.to_number false (decimal_value r)))
            (firstn 3 (map snd blocks))).
Proof.
  intros W N.
  rewrite (parseRGB_string _ N), (digit_runs_interleave blocks last W). f_equal.
  rewrite map_map. apply map_ext_in. intros r Hr.
  assert (R : is_run r).
  { destruct W as [W _].
    assert (F : Forall is_run (firstn 3 (map snd blocks))).
    { apply Forall_firstn, Forall_forall. intros x Hx.
      apply in_map_iff in Hx as [b [<- Hb]].
      rewrite Forall_forall in W. now apply W. }
    rewrite Forall_forall in F. now apply F. }
  now destruct (parseInt_run_number r R) as [-> _].
Qed.

(** C6 fails as worded.  The text [9007199254740993] is one run of digits,
    and it writes 2^53 + 1, which no number holds: [parseInt] gives the
    nearest number, 2^53, so that the component is 0 and the colour
    [38;5;0], where the value of the run modulo 256 is 1.  And the empty
    text, which has no run, gives [null] and not an empty list. *)
Lemma rgb_extraction_counterexample :
  well_separated [("", "9007199254740993")] ""
  /\ components [("", "9007199254740993")] = [1]
  /\ parseRGB (RgbString "9007199254740993") = Some [Int 0]
  /\ colorizeByText "X" (Some "9007199254740993")
     = Normal (String ESC "[38;5;0mX" ++ reset)
  /\ ~ extraction_as_documented [("", "9007199254740993")] ""
  /\ ~ extraction_as_documented [] "".
Proof.
  split; [|split; [|split; [|split; [|split]]]].
  - unfold well_separated, is_delimiter, is_run.
    repeat split; repeat constructor; simpl; discriminate.
  - reflexivity.
  - vm_compute. reflexivity.
  - vm_compute. reflexivity.
  - unfold extraction_as_documented. vm_compute. discriminate.
  - unfold extraction_as_documented. vm_compute. discriminate.
Qed.

(** C6 (amended). For a colour text that is not empty, made of runs of
    digits with delimiters of any characters that are not digits, where
    each of the first three runs writes an integer below 2^53, [parseRGB]
    gives the first three runs, in order, each reduced modulo 256, whatever
    the delimiters are; and [getColor] makes of one component
    [(38|48);5;i], of two [(38|48);2;c1;c2;0] and of three
    [(38|48);2;r;g;b], with 48 for a background. *)
Theorem rgb_extraction (blocks : list (string * string)) (last text : string)
    (background bright : bool) :
  well_separated blocks last ->
  interleave blocks last <> EmptyString ->
  exact_runs blocks ->
  let comps := components blocks in
  let color := getColor text (rgb_options background bright comps) in
  let params (l : list Z) := Normal (prefix ++ join_nums ";" l ++ postfix) in
  parseRGB (RgbString (interleave blocks last)) = Some (map Int comps)
  /\ (forall i, comps = [i] -> color = params [selector background; 5; i])
  /\ (forall c1 c2,
        comps = [c1; c2] -> color = params [selector background; 2; c1; c2; 0])
  /\ (forall r g b,
        comps = [r; g; b] -> color = params [selector background; 2; r; g; b]).
Proof.
  intros W N X comps color params.
  split; [exact (parseRGB_interleave blocks last W N X)|].
  destruct (components_small blocks) as [L F].
  assert (E := getColor_rgb text background bright comps L F).
  fold color in E. unfold params.
  repeat split; intros; rewrite E; subst comps;
    match goal with H : components _ = _ |- _ => rewrite H end; reflexivity.
Qed.

Lemma rgb_extraction_witness :
  parseRGB (RgbString "256,0-7;9") = Some [Int 0; Int 0; Int 7]
  /\ getColor "" (rgb_options true false [0; 0; 7])
     = Normal (prefix ++ join_nums ";" [48; 2; 0; 0; 7] ++ postfix).
Proof.
  assert (W : well_separated [("", "256"); (",", "0"); ("-", "7"); (";", "9")] "").
  { unfold well_separated, is_delimiter, is_run.
    repeat split; repeat constructor; simpl; discriminate. }
  assert (N : interleave [("", "256"); (",", "0"); ("-", "7"); (";", "9")] ""
              <> EmptyString) by discriminate.
  assert (S : exact_runs [("", "256"); (",", "0"); ("-", "7"); (";", "9")]).
  { unfold exact_runs. repeat constructor. }
  destruct (rgb_extraction _ "" "" true false W N S) as [P [_ [_ C]]].
  split; [exact P | exact (C 0 0 7 eq_refl)].
Defined.

(** The delimiters play no part: two texts with the same runs give the same
    components. *)
Lemma delimiters_irrelevant (blocks1 blocks2 : list (string * string))
    (last1 last2 : string) :
  well_separated blocks1 last1 ->
  well_separated blocks2 last2 ->
  map snd blocks1 = map snd blocks2 ->
  blocks1 <> [] ->
  parseRGB (RgbString (interleave blocks1 last1))
  = parseRGB (RgbString (interleave blocks2 last2)).
Proof.
  intros W1 W2 E N.
  assert (NE : forall blocks last,
             well_separated blocks last -> blocks <> [] ->
             interleave blocks last <> EmptyString).
  { intros [|[d r] rest] last [W _] H; [contradiction|].
    inversion W as [|? ? [_ [_ R]] _]. simpl in R. simpl.
    destruct d; [destruct r; [contradiction | discriminate] | discriminate]. }
  rewrite !parseRGB_string, !digit_runs_interleave, E; auto.
  apply NE; [exact W2|]. intros ->. destruct blocks1; [contradiction | discriminate].
Qed.

(** The cases of the design document, and a run too long for a number: it
    is read as an infinity, which has no remainder. *)
Example rgb_examples :
  parseRGB (RgbString "256,0,0") = Some [Int 0; Int 0; Int 0]
  /\ parseRGB (RgbString "255,0,0") = Some [Int 255; Int 0; Int 0]
  /\ parseRGB (RgbString "255-0-0") = Some [Int 255; Int 0; Int 0]
  /\ parseRGB (RgbString "255.0.0") = Some [Int 255; Int 0; Int 0]
  /\ parseRGB (RgbString "255/0-0") = Some [Int 255; Int 0; Int 0]
  /\ parseRGB (RgbString "1 2 3 4") = Some [Int 1; Int 2; Int 3]
  /\ parseRGB (RgbString (String.concat "" (repeat "9" 309))) = Some [NaN]
  /\ colorizeByText "X" (Some "12") = Normal (String ESC "[38;5;12mX" ++ reset)
  /\ colorizeByText "X" (Some "1,2") = Normal (String ESC "[38;2;1;2;0mX" ++ reset)
  /\ colorizeByText "X" (Some "255,0,0")
     = Normal (String ESC "[38;2;255;0;0mX" ++ reset)
  /\ parseString "|c.bg_255,0,0.X|" None
     = Normal (String ESC "[48;2;255;0;0mX" ++ reset).
Proof.
  repeat split; vm_compute; reflexivity.
Qed.

(** * Further properties of the formatting functions *)

(** ** When the classification of a colour throws *)

Lemma hexToRgb_none_iff (hex : string) :
  hexToRgb hex = None
  <-> supported_hex_length (String.length (Str.strip_hash hex)) = false.
Proof.
  unfold hexToRgb, supported_hex_length.
  destruct (String.length (Str.strip_hash hex)) as [|[|[|[|[|[|[|[|[|n]]]]]]]]];
    simpl; split; intros H; congruence.
Qed.

Lemma hexToRgb_three (hex : string) (a : list num) :
  hexToRgb hex = Some a -> exists x y z, a = [x; y; z].
Proof.
  unfold hexToRgb.
  destruct (String.length (Str.strip_hash hex)) as [|[|[|[|[|[|[|[|[|n]]]]]]]]];
    intros H; inversion H; eauto.
Qed.

(** X1. [getColorFromText] throws exactly on the empty text and on a text
    that starts with [#] and has, after the [#], another number of
    characters than 3, 6 or 8; on every other text it returns. *)
Theorem getColorFromText_throws_iff (code : string) :
  getColorFromText code = Throw TypeError
  <-> code = EmptyString
      \/ (Str.startsWith code "#" = true
          /\ supported_hex_length (String.length (Str.strip_hash code)) = false).
Proof.
  destruct code as [|c r].
  - split; [now left | reflexivity].
  - unfold getColorFromText. cbv zeta.
    destruct (Str.startsWith (String c r) "#") eqn:H.
    + destruct (hexToRgb (String c r)) as [a|] eqn:E.
      * destruct (hexToRgb_three _ _ E) as [x [y [z ->]]].
        split; [discriminate|].
        intros [N|[_ N]]; [discriminate N|].
        apply hexToRgb_none_iff in N. congruence.
      * split; [|reflexivity]. intros _. right.
        split; [reflexivity | now apply hexToRgb_none_iff].
    + match goal with
      | |- context [if ?b then parseRGB _ else _] => destruct b
      end; [rewrite parseRGB_string by discriminate|];
        (split; [intros D; discriminate D | intros [N|[N _]]; discriminate N]).
Qed.

(** ** Style names given as colours *)

(** X2. A style name given to [colorizeByText] as the colour adds no
    styling: the text comes back followed by the reset and nothing before
    it.  This is the case of the [[xN]] marks, which the logger colours
    with [dim]. *)
Theorem style_name_is_no_color (t name : string) :
  In name (map fst STYLES) ->
  colorizeByText t (Some name) = Normal (t ++ reset).
Proof.
  intros H. simpl in H.
  repeat (destruct H as [H|H]; [subst name; reflexivity|]). contradiction.
Qed.

Lemma style_name_is_no_color_witness :
  colorizeByText "[x2]" (Some "dim") = Normal ("[x2]" ++ reset).
Proof.
  apply (style_name_is_no_color "[x2]" "dim"). simpl. tauto.
Defined.

(** ** Colours given by an array *)

(** X3. With an [rgb] array [getColor] never throws and never answers the
    empty string: it gives one escape sequence whose first parameter is 38,
    or 48 for a background, and whose second is 5 or 2.  The text and the
    bright flag play no part. *)
Theorem getColor_rgb_total (t t' : string) (b c c' : bool) (arr : list num) :
  exists mode params,
    getColor t (Some {| bg := b; contrast := c; rgb := Some arr |})
    = Normal (prefix ++ join_nums ";" (selector b :: mode :: params) ++ postfix)
    /\ (mode = 5 \/ mode = 2)
    /\ getColor t' (Some {| bg := b; contrast := c'; rgb := Some arr |})
       = getColor t (Some {| bg := b; contrast := c; rgb := Some arr |}).
Proof.
  unfold getColor, selector. cbn [bg contrast rgb is_some negb andb].
  destruct (parseRGB_array_ints arr) as [comps [-> _]].
  rewrite !andb_false_r, Z.add_0_r.
  destruct comps as [|x [|y l]].
  - exists 2, []. auto.
  - exists 5, [x]. rewrite <- join_numbers_ints. auto.
  - destruct l as [|z l].
    + exists 2, [x; y; 0]. rewrite <- join_numbers_ints. auto.
    + exists 2, (firstn 3 (x :: y :: z :: l)). rewrite <- join_numbers_ints. auto.
Qed.

(** ** Hex colours of hex digits *)

Lemma hex_digit_facts (c : ascii) (v : Z) :
  hex_digit c v ->
  0 <= v < 16
  /\ Num.is_space c = false
  /\ Ascii.eqb c "-" = false /\ Ascii.eqb c "+" = false
  /\ Ascii.eqb c "x" = false /\ Ascii.eqb c "X" = false.
Proof.
  unfold hex_digit.
  destruct c as [[] [] [] [] [] [] [] []]; vm_compute; intros H;
    try discriminate H; injection H as <-; repeat split; discriminate.
Qed.

Lemma strip_0x_pair (h l : ascii) (r : string) :
  Ascii.eqb l "x" = false ->
  Ascii.eqb l "X" = false ->
  Num.strip_0x (String h (String l r)) = String h (String l r).
Proof.
  intros Hx HX.
  destruct h as [[] [] [] [] [] [] [] []]; simpl; try reflexivity.
  now rewrite Hx, HX.
Qed.

(** [parseInt] of two hex digits, in base 16. *)
Lemma parseInt_hex_pair (h l : ascii) (a b : Z) :
  hex_digit h a ->
  hex_digit l b ->
  Num.parseInt (String h (String l EmptyString)) 16 = Int (16 * a + b)
  /\ 0 <= 16 * a + b < 256.
Proof.
  intros Ha Hb.
  destruct (hex_digit_facts h a Ha) as [Ra [Sp [Mi [Pl _]]]].
  destruct (hex_digit_facts l b Hb) as [Rb [_ [_ [_ [Lx LX]]]]].
  split; [|lia].
  unfold Num.parseInt. cbn [Num.trimStart]. rewrite Sp.
  unfold Num.split_sign. rewrite Mi, Pl.
  change (16 =? 16) with true. cbv iota.
  rewrite (strip_0x_pair h l EmptyString Lx LX).
  unfold hex_digit in Ha, Hb. cbn [Num.parse_digits]. rewrite Ha, Hb.
  rewrite to_number_exact by lia. f_equal. lia.
Qed.

Lemma getColor_three (t : string) (r g b : Z) :
  0 <= r < 256 -> 0 <= g < 256 -> 0 <= b < 256 ->
  getColor t (Some {| bg := false; contrast := false;
                      rgb := Some [Int r; Int g; Int b] |})
  = Normal (prefix ++ join_nums ";" [38; 2; r; g; b] ++ postfix).
Proof.
  intros Hr Hg Hb.
  change (Some {| bg := false; contrast := false; rgb := Some [Int r; Int g; Int b] |})
    with (rgb_options false false [r; g; b]).
  rewrite getColor_rgb; [reflexivity | simpl; lia | repeat constructor; lia].
Qed.

(** X4. A hex colour of six hex digits resolves to the 24-bit sequence
    [38;2;r;g;b] whose components are the values of the three pairs of
    digits, and one of three hex digits to the sequence in which each digit
    counts twice. *)
Theorem hex_digits_value (t : string) (r1 r2 g1 g2 b1 b2 : ascii)
    (vr1 vr2 vg1 vg2 vb1 vb2 : Z) :
  hex_digit r1 vr1 -> hex_digit r2 vr2 ->
  hex_digit g1 vg1 -> hex_digit g2 vg2 ->
  hex_digit b1 vb1 -> hex_digit b2 vb2 ->
  colorizeByText t
    (Some (String "#" (String r1 (String r2 (String g1 (String g2
             (String b1 (String b2 EmptyString))))))))
  = Normal (prefix
            ++ join_nums ";" [38; 2; 16 * vr1 + vr2; 16 * vg1 + vg2; 16 * vb1 + vb2]
            ++ postfix ++ t ++ reset)
  /\ colorizeByText t
       (Some (String "#" (String r1 (String g1 (String b1 EmptyString)))))
     = Normal (prefix
               ++ join_nums ";" [38; 2; 16 * vr1 + vr1; 16 * vg1 + vg1; 16 * vb1 + vb1]
               ++ postfix ++ t ++ reset).
Proof.
  intros R1 R2 G1 G2 B1 B2.
  destruct (parseInt_hex_pair r1 r2 _ _ R1 R2) as [Er Br].
  destruct (parseInt_hex_pair g1 g2 _ _ G1 G2) as [Eg Bg].
  destruct (parseInt_hex_pair b1 b2 _ _ B1 B2) as [Eb Bb].
  destruct (parseInt_hex_pair r1 r1 _ _ R1 R1) as [Er' Br'].
  destruct (parseInt_hex_pair g1 g1 _ _ G1 G1) as [Eg' Bg'].
  destruct (parseInt_hex_pair b1 b1 _ _ B1 B1) as [Eb' Bb'].
  split.
  - assert (C : getColorFromText
                  (String "#" (String r1 (String r2 (String g1 (String g2
                     (String b1 (String b2 EmptyString)))))))
                = Normal (EmptyString,
                          Some [Int (16 * vr1 + vr2); Int (16 * vg1 + vg2);
                                Int (16 * vb1 + vb2)])).
    { unfold getColorFromText, hexToRgb. cbn [Str.startsWith Str.strip_hash].
      change (String.substring 0 2 (String r1 (String r2 (String g1 (String g2
                (String b1 (String b2 EmptyString)))))))
        with (String r1 (String r2 EmptyString)).
      change (String.substring 2 2 (String r1 (String r2 (String g1 (String g2
                (String b1 (String b2 EmptyString)))))))
        with (String g1 (String g2 EmptyString)).
      change (String.substring 4 2 (String r1 (String r2 (String g1 (String g2
                (String b1 (String b2 EmptyString)))))))
        with (String b1 (String b2 EmptyString)).
      cbn [String.length]. rewrite Er, Eg, Eb. reflexivity. }
    unfold colorizeByText. rewrite C. cbn [bind].
    rewrite getColor_three by assumption. cbn [bind].
    now rewrite !append_assoc.
  - assert (C : getColorFromText
                  (String "#" (String r1 (String g1 (String b1 EmptyString))))
                = Normal (EmptyString,
                          Some [Int (16 * vr1 + vr1); Int (16 * vg1 + vg1);
                                Int (16 * vb1 + vb1)])).
    { unfold getColorFromText, hexToRgb. cbn [Str.startsWith Str.strip_hash].
      change (char_at (String r1 (String g1 (String b1 EmptyString))) 0)
        with (String r1 EmptyString).
      change (char_at (String r1 (String g1 (String b1 EmptyString))) 1)
        with (String g1 EmptyString).
      change (char_at (String r1 (String g1 (String b1 EmptyString))) 2)
        with (String b1 EmptyString).
      cbn [String.length append]. rewrite Er', Eg', Eb'. reflexivity. }
    unfold colorizeByText. rewrite C. cbn [bind].
    rewrite getColor_three by assumption. cbn [bind].
    now rewrite !append_assoc.
Qed.

Lemma hex_digits_value_witness :
  colorizeByText "X" (Some "#1aF0c3")
  = Normal (prefix ++ join_nums ";" [38; 2; 26; 240; 195] ++ postfix ++ "X" ++ reset).
Proof.
  apply (proj1 (hex_digits_value "X" "1" "a" "F" "0" "c" "3" 1 10 15 0 12 3
                  eq_refl eq_refl eq_refl eq_refl eq_refl eq_refl)).
Defined.

(** ** Hex colours of a supported length *)



(** ** The codes kept from a colour sequence *)

Lemma remove_first_prefix (s : string) :
  Str.remove_first (prefix ++ s) prefix = s.
Proof.
  destruct s; reflexivity.
Qed.

Lemma strip_final_m_postfix (p : string) :
  Str.strip_final_m (p ++ postfix) = p.
Proof.
  induction p as [|c p IH]; [reflexivity|].
  simpl append. cbn [Str.strip_final_m].
  destruct (p ++ postfix) eqn:E.
  - destruct p; discriminate E.
  - now rewrite IH.
Qed.

Lemma join_nums_cons (sep : string) (x : Z) (l : list Z) :
  join_nums sep (x :: l)
  = match l with
    | [] => Num.toString x
    | _ => Num.toString x ++ sep ++ join_nums sep l
    end.
Proof.
  destruct l; reflexivity.
Qed.

(** What [getColor] returns: nothing, or the sequence of a non-empty list
    of numbers. *)
Lemma getColor_shape (t : string) (options : option color_options) (c : string) :
  getColor t options = Normal c ->
  c = EmptyString
  \/ exists l, l <> [] /\ c = prefix ++ join_nums ";" l ++ postfix.
Proof.
  unfold getColor.
  destruct (_ && _)%bool; [intros H; inversion H; now left|].
  destruct (match options with Some o => rgb o | None => None end) as [arr|].
  - destruct (parseRGB_array_ints arr) as [comps [-> _]].
    intros H. inversion H. right.
    destruct comps as [|x [|y [|z l]]];
      [ eexists [_; _] | eexists [_; _; _] | eexists [_; _; _; _; _]
      | eexists [_; _; _; _; _] ];
      (split; [discriminate | rewrite <- join_numbers_ints; reflexivity]).
  - destruct (match find_key _ with Some k => Some k | None => _ end) as [[k n]|];
      intros H; inversion H; [|now left].
    right. eexists [_]. split; [discriminate | reflexivity].
Qed.

(** X6. What [getColor] returns is empty or one escape sequence, and the
    unwrapping that [parseString] and [prepareObject] apply to it,
    [replace(prefix, "")] and then [replace(/m$/, "")], gives back exactly
    the parameters between [ESC[] and [m]. *)
Theorem color_code_unwrapped (t : string) (options : option color_options)
    (c : string) :
  getColor t options = Normal c ->
  c = EmptyString
  \/ exists l,
       l <> []
       /\ c = prefix ++ join_nums ";" l ++ postfix
       /\ Str.strip_final_m (Str.remove_first c prefix) = join_nums ";" l.
Proof.
  intros H. destruct (getColor_shape _ _ _ H) as [E|[l [N E]]]; [now left|].
  right. exists l. repeat split; auto.
  rewrite E, remove_first_prefix. apply strip_final_m_postfix.
Qed.

Lemma color_code_unwrapped_witness :
  String ESC "[48;2;1;2;3m" = EmptyString
  \/ exists l,
       l <> []
       /\ String ESC "[48;2;1;2;3m" = prefix ++ join_nums ";" l ++ postfix
       /\ Str.strip_final_m (Str.remove_first (String ESC "[48;2;1;2;3m") prefix)
          = join_nums ";" l.
Proof.
  apply (color_code_unwrapped "" (rgb_options true false [1; 2; 3])).
  reflexivity.
Defined.

(** ** Styles of an options object *)

Lemma forEach_push_style (names : list string) :
  forall args ends,
    (forEach push_style names (args, ends) = Throw TypeError
     <-> exists n, In n names /\ STYLES_get n = Absent)
    /\ (forall args' ends',
          forEach push_style names (args, ends) = Normal (args', ends') ->
          List.length args' = (List.length args + List.length names)%nat
          /\ List.length ends' = (List.length ends + List.length names)%nat).
Proof.
  induction names as [|n names IH]; intros args ends.
  - split.
    + split; [discriminate | intros [n [[] _]]].
    + intros args' ends' H. inversion H. simpl. lia.
  - rewrite forEach_cons. unfold push_style at 1 3.
    destruct (STYLES_get n) eqn:E; cbn [bind].
    + destruct (IH (args ++ [VNum (on a)])%list (ends ++ [VNum (off a)])%list)
        as [T L].
      split.
      * rewrite T. split; intros [m [Hm A]]; exists m.
        -- split; [now right | exact A].
        -- destruct Hm as [->|Hm]; [congruence | auto].
      * intros args' ends' H. destruct (L _ _ H) as [La Le].
        rewrite La, Le, !length_app. simpl. lia.
    + destruct (IH (args ++ [VUndef])%list (ends ++ [VUndef])%list) as [T L].
      split.
      * rewrite T. split; intros [m [Hm A]]; exists m.
        -- split; [now right | exact A].
        -- destruct Hm as [->|Hm]; [congruence | auto].
      * intros args' ends' H. destruct (L _ _ H) as [La Le].
        rewrite La, Le, !length_app. simpl. lia.
    + split.
      * split; [|reflexivity]. intros _. exists n. split; [now left | exact E].
      * intros args' ends' H. discriminate H.
Qed.

(** X7. For an object of styles alone [prepareObject] throws exactly when
    one of the names is no key of the style table (own or inherited);
    otherwise it gives one on-code and one off-code for each name. *)
Theorem prepareObject_styles (names : list string) :
  (prepareObject (styles_only names) = Throw TypeError
   <-> exists n, In n names /\ STYLES_get n = Absent)
  /\ (forall args ends,
        prepareObject (styles_only names) = Normal (args, ends) ->
        List.length args = List.length names
        /\ List.length ends = List.length names).
Proof.
  unfold prepareObject, styles_only. cbn [color background style bind app].
  exact (forEach_push_style names [] []).
Qed.

Lemma prepareObject_styles_witness :
  List.length [VNum 1; VNum 4] = List.length ["bold"; "underline"]
  /\ List.length [VNum 22; VNum 24] = List.length ["bold"; "underline"].
Proof.
  apply (proj2 (prepareObject_styles ["bold"; "underline"])). reflexivity.
Defined.

(** ** Replacement of targets *)

Lemma replaceAll_go_absent (pat rep : string) :
  forall s before,
    ~ occurs_in pat s -> Str.replaceAll_go pat rep O before s = s.
Proof.
  induction s as [|c s IH]; intros before N; [reflexivity|].
  cbn [Str.replaceAll_go].
  destruct (String.prefix pat (String c s)) eqn:P.
  - exfalso. now apply N, prefix_occurs.
  - f_equal. apply IH. intros H. now apply N, occurs_in_tail.
Qed.

(** X8. An entry of [currents] whose target does not occur in the text
    leaves the text as it is, and is recorded among the changed targets all
    the same (where a later note can find its codes). *)
Theorem current_without_occurrence (global : string) (globalArgs : list jsval)
    (st st' : layers) (current : current_entry) (x : ascii) (rest : string) :
  cur_target current = Some (String x rest) ->
  ~ occurs_in (String x rest) (textContent st) ->
  current_step global globalArgs st current = Normal st' ->
  textContent st' = textContent st
  /\ changedTargets st' = (changedTargets st ++ [String x rest])%list
  /\ exists args ends,
       prepareObject (cur_style current) = Normal (args, ends)
       /\ targetChanges st' = (targetChanges st ++ [args])%list.
Proof.
  intros T N H. unfold current_step in H. rewrite T in H.
  destruct (prepareObject (cur_style current)) as [[args ends]|e];
    [|discriminate H].
  cbn [bind] in H. inversion H. cbn [textContent changedTargets targetChanges].
  split; [|split; [reflexivity | now exists args, ends]].
  unfold Str.replaceAll. now apply replaceAll_go_absent.
Qed.

Lemma current_without_occurrence_witness :
  let st := {| textContent := "plain"; changedTargets := []; targetChanges := [] |} in
  let st' := {| textContent := "plain"; changedTargets := ["x"];
                targetChanges := [[VStr "31"; VNum 1]] |} in
  textContent st' = textContent st
  /\ changedTargets st' = (changedTargets st ++ ["x"])%list
  /\ exists args ends,
       prepareObject (cur_style red_bold_current) = Normal (args, ends)
       /\ targetChanges st' = (targetChanges st ++ [args])%list.
Proof.
  intros st st'.
  apply (current_without_occurrence EmptyString [] st st' red_bold_current "x" "").
  - reflexivity.
  - rewrite <- includes_spec. vm_compute. discriminate.
  - reflexivity.
Defined.

Lemma getSubstitution_inert (matched before rest template : string) :
  dollar_free template ->
  Str.getSubstitution matched before rest template = template.
Proof.
  unfold dollar_free. induction template as [|c r IH]; intros H; [reflexivity|].
  simpl in H. apply andb_true_iff in H as [Hc Hr].
  apply negb_true_iff in Hc. cbn [Str.getSubstitution]. rewrite Hc.
  now rewrite (IH Hr).
Qed.

Lemma drop_length_append (a b : string) :
  Str.drop (String.length a) (a ++ b) = b.
Proof.
  induction a as [|c a IH]; [now destruct b | exact IH].
Qed.

Lemma drop_zero (s : string) : Str.drop O s = s.
Proof.
  now destruct s.
Qed.

(** Replacing a text without [$] by itself changes nothing. *)
Lemma replaceAll_go_self (pat : string) :
  dollar_free pat ->
  pat <> EmptyString ->
  forall s k before,
    (k <= String.length s)%nat ->
    Str.replaceAll_go pat pat k before s = Str.drop k s.
Proof.
  intros D N. induction s as [|c s IH]; intros k before L.
  - simpl in L. assert (k = O) by lia. now subst.
  - destruct k as [|k].
    + cbn [Str.replaceAll_go]. rewrite drop_zero.
      destruct (String.prefix pat (String c s)) eqn:P.
      * rewrite (getSubstitution_inert _ _ _ _ D).
        apply prefix_spec in P as [b E].
        destruct pat as [|x p]; [contradiction|].
        simpl in E. injection E as Ex Es.
        replace (String.length (String x p) - 1)%nat with (String.length p)
          by (simpl; lia).
        rewrite IH by (rewrite Es, length_append; lia).
        rewrite Es, drop_length_append, Ex. reflexivity.
      * f_equal. rewrite IH by lia. apply drop_zero.
    + cbn [Str.replaceAll_go Str.drop]. apply IH. simpl in L. lia.
Qed.

Lemma join_chars (s : string) : Str.join_empty (Str.chars s) = s.
Proof.
  induction s as [|c s IH]; [reflexivity|].
  cbn [Str.chars]. rewrite join_empty_cons, IH. reflexivity.
Qed.

Lemma map_symbols_outside (index : index_value) (reg : reg_value)
    (styles : list jsval) (symbols : list string) :
  forall k,
    (forall n, (k <= n < k + List.length symbols)%nat ->
               index_includes index n = false) ->
    map_symbols index reg styles k symbols = symbols.
Proof.
  induction symbols as [|x symbols IH]; intros k H; [reflexivity|].
  cbn [map_symbols]. rewrite (H k) by (simpl; lia).
  f_equal. apply IH. intros n Hn. apply H. simpl. lia.
Qed.

Lemma length_chars (s : string) : List.length (Str.chars s) = String.length s.
Proof.
  induction s as [|c s IH]; simpl; [reflexivity | now rewrite IH].
Qed.

(** X9. A note whose indices all lie outside its target (or that has no
    index) changes nothing, provided the target has no character [$]: the
    target is replaced by itself, and in a replacement [$$], [$&] and the
    like are patterns. *)
Theorem note_outside_target (st : layers) (note : note_entry) (target : string) :
  note_target note = Some target ->
  dollar_free target ->
  index_outside (note_index note) (String.length target) ->
  note_step st note = st.
Proof.
  intros T D O. unfold note_step. rewrite T.
  destruct target as [|x rest]; [reflexivity|].
  rewrite map_symbols_outside.
  - rewrite join_chars. unfold Str.replaceAll.
    rewrite (replaceAll_go_self (String x rest) D ltac:(discriminate)) by lia.
    rewrite drop_zero. now destruct st.
  - intros n Hn. apply O. rewrite length_chars in Hn. lia.
Qed.

Lemma note_outside_target_witness :
  let st := {| textContent := "H2O and H2O"; changedTargets := [];
               targetChanges := [] |} in
  note_step st {| note_target := Some "H2O"; note_index := IndexMany [3; -1];
                  note_reg := RegStr "down" |} = st.
Proof.
  intros st.
  apply (note_outside_target st _ "H2O"); [reflexivity | reflexivity |].
  intros n Hn. simpl in Hn.
  destruct n as [|[|[|n]]]; [reflexivity | reflexivity | reflexivity | lia].
Defined.

(** With [$$] in the target the same note does change the text. *)
Example note_with_dollars :
  note_step {| textContent := "cost: $$5"; changedTargets := []; targetChanges := [] |}
    {| note_target := Some "$$"; note_index := IndexUndef; note_reg := RegUndef |}
  = {| textContent := "cost: $5"; changedTargets := []; targetChanges := [] |}.
Proof.
  reflexivity.
Qed.

(** ** Where the inline parser throws *)

Lemma forEach_app {S A : Type} (f : S -> A -> completion S) (l1 l2 : list A) :
  forall st,
    forEach f (l1 ++ l2)%list st = (st' <- forEach f l1 st ;; forEach f l2 st').
Proof.
  induction l1 as [|a l1 IH]; intros st; [reflexivity|].
  simpl. destruct (f st a); simpl; [apply IH | reflexivity].
Qed.

Lemma forEach_returns {S A : Type} (f : S -> A -> completion S) (l : list A) :
  (forall st a, In a l -> exists st', f st a = Normal st') ->
  forall st, exists st', forEach f l st = Normal st'.
Proof.
  induction l as [|a l IH]; intros H st; [now exists st|].
  rewrite forEach_cons.
  destruct (H st a (or_introl eq_refl)) as [st1 ->]. cbn [bind].
  apply IH. intros st0 b Hb. apply H. now right.
Qed.

(** X10. [parseString] throws only in a colour command: on a text none of
    whose segments has the key [c] it returns. *)
Theorem parseString_without_color_returns (t : string)
    (separators : option separators_t) :
  (forall i,
      In i (Str.split t (commandSeparator_of separators)) ->
      key_is (command_key (commandSeparator_of separators)
                (Str.split i (paramSeparator_of separators))) "c" = false) ->
  exists s, parseString t separators = Normal s.
Proof.
  intros H. unfold parseString.
  destruct (forEach_returns
              (command_step (commandSeparator_of separators)
                 (paramSeparator_of separators))
              (filter non_empty (Str.split t (commandSeparator_of separators))))
    with (st := (EmptyString, @None string)) as [st ->].
  - intros [str lastColor] i Hi. apply filter_In in Hi as [Hi _].
    unfold command_step. rewrite (H i Hi).
    destruct (key_is _ "i"); [eauto|]. destruct (key_is _ "s"); eauto.
  - cbn [bind]. eauto.
Qed.

Lemma parseString_without_color_returns_witness :
  exists s, parseString "|s.bold.A| text |i.up.2|" None = Normal s.
Proof.
  apply (parseString_without_color_returns "|s.bold.A| text |i.up.2|" None).
  intros i H. simpl in H.
  repeat (destruct H as [H|H]; [subst i; reflexivity|]). contradiction.
Defined.

Lemma prefix_char (x y : ascii) (s : string) :
  String.prefix (String x EmptyString) (String y s)
  = if ascii_dec x y then true else false.
Proof.
  simpl. destruct (ascii_dec x y); [apply prefix_empty | reflexivity].
Qed.

(** Splitting on one character splits both sides of an occurrence. *)
Lemma split_go_app (x : ascii) (b : string) :
  forall a cur,
    Str.split_go (String x EmptyString) O cur (a ++ String x b)
    = (Str.split_go (String x EmptyString) O cur a
       ++ Str.split_go (String x EmptyString) O EmptyString b)%list.
Proof.
  induction a as [|y a IH]; intros cur.
  - simpl append. cbn [Str.split_go]. rewrite prefix_char.
    destruct (ascii_dec x x); [reflexivity | contradiction].
  - simpl append. cbn [Str.split_go]. rewrite !prefix_char.
    destruct (ascii_dec x y); cbn [String.length Nat.sub]; simpl app.
    + f_equal. apply IH.
    + apply IH.
Qed.

Lemma remove_first_absent (pat : string) :
  forall s, ~ occurs_in pat s -> Str.remove_first s pat = s.
Proof.
  induction s as [|c s IH]; intros N.
  - cbn [Str.remove_first].
    destruct (String.prefix pat EmptyString) eqn:P; [|reflexivity].
    exfalso. now apply N, prefix_occurs.
  - cbn [Str.remove_first].
    destruct (String.prefix pat (String c s)) eqn:P.
    + exfalso. now apply N, prefix_occurs.
    + f_equal. apply IH. intros H. now apply N, occurs_in_tail.
Qed.

Lemma throw_is_TypeError {A : Type} (e : js_error) :
  @Throw A e = Throw TypeError.
Proof.
  now destruct e.
Qed.

(** The step of [parseString] on a word that starts with [c] or [C] and
    has no separator. *)
Lemma command_step_bare_c (st : string * option string) (c : ascii) (r : string) :
  Str.lower_char c = "c"%char ->
  ~ occurs_in "|" (String c r) ->
  ~ occurs_in "." (String c r) ->
  command_step "|" "." st (String c r) = Throw TypeError.
Proof.
  intros L Nc Np. unfold command_step. destruct st as [str lastColor].
  unfold Str.split. rewrite (split_go_absent "." _ EmptyString Np).
  unfold command_key. cbn [append hd].
  rewrite (remove_first_absent "|" _ Nc).
  cbn [Str.toLowerCase first_char key_is]. rewrite L. reflexivity.
Qed.

(** X11. A text that contains [|] and whose last segment is a word that
    starts with [c] or [C] and has no [.] makes [prepareCustomLog] throw,
    whatever comes before it and whatever the options are, when no
    separators are configured: the word is taken for a colour command
    without argument. *)
Theorem trailing_c_word_throws (a : string) (c : ascii) (r : string)
    (options : option log_options) :
  default_separators options ->
  Str.lower_char c = "c"%char ->
  ~ occurs_in "|" (String c r) ->
  ~ occurs_in "." (String c r) ->
  prepareCustomLog (a ++ "|" ++ String c r) options = Throw TypeError.
Proof.
  intros S L Nc Np. unfold prepareCustomLog.
  assert (D : delegates (a ++ "|" ++ String c r) options = true).
  { unfold delegates. apply orb_true_iff. right.
    apply includes_spec. now exists a, (String c r). }
  rewrite D. unfold default_separators in S. rewrite S.
  unfold parseString. cbn [commandSeparator_of paramSeparator_of].
  unfold Str.split. simpl append.
  rewrite (split_go_app "|" (String c r) a EmptyString).
  rewrite (split_go_absent "|" _ EmptyString Nc). simpl append.
  rewrite filter_app. cbn [filter non_empty ToNumber.is_empty negb].
  rewrite forEach_app.
  destruct (forEach _ (filter non_empty _) _) as [st|e]; cbn [bind].
  - cbn [forEach]. now rewrite (command_step_bare_c st c r L Nc Np).
  - apply throw_is_TypeError.
Qed.

Lemma trailing_c_word_throws_witness :
  prepareCustomLog "see |cat" None = Throw TypeError.
Proof.
  apply (trailing_c_word_throws "see " "c" "at" None); try reflexivity.
  - rewrite <- includes_spec. vm_compute. discriminate.
  - rewrite <- includes_spec. vm_compute. discriminate.
Defined.

(** ** Every occurrence of a target is wrapped *)

Lemma all_chars_append (p : ascii -> bool) (a b : string) :
  all_chars p (a ++ b) = (all_chars p a && all_chars p b)%bool.
Proof.
  induction a as [|c a IH]; simpl; [reflexivity|].
  now rewrite IH, andb_assoc.
Qed.

Lemma dollar_free_append (a b : string) :
  dollar_free a -> dollar_free b -> dollar_free (a ++ b).
Proof.
  unfold dollar_free. intros Ha Hb. now rewrite all_chars_append, Ha, Hb.
Qed.

Lemma dollar_free_toString (z : Z) : dollar_free (Num.toString z).
Proof.
  assert (E : forall d, dollar_free (NilEmpty.string_of_uint d)).
  { unfold dollar_free. induction d; simpl; auto. }
  assert (U : forall d, dollar_free (NilZero.string_of_uint d)).
  { intros d. destruct d; try apply E. reflexivity. }
  unfold Num.toString. destruct (Z.to_int z) as [d|d]; simpl.
  - apply U.
  - unfold dollar_free. simpl. apply U.
Qed.

Lemma dollar_free_concat (sep : string) (l : list string) :
  dollar_free sep ->
  Forall dollar_free l ->
  dollar_free (String.concat sep l).
Proof.
  intros S. induction 1 as [|x l Hx Hl IH]; [reflexivity|].
  simpl. destruct l; [exact Hx|].
  apply dollar_free_append; [exact Hx|]. now apply dollar_free_append.
Qed.

Lemma dollar_free_join_nums (l : list Z) : dollar_free (join_nums ";" l).
Proof.
  apply dollar_free_concat; [reflexivity|].
  apply Forall_forall. intros x Hx. apply in_map_iff in Hx as [z [<- _]].
  apply dollar_free_toString.
Qed.

Lemma dollar_free_join_vals (sep : string) (l : list jsval) :
  dollar_free sep -> plain_codes l -> dollar_free (join_vals sep l).
Proof.
  intros S H. apply dollar_free_concat; [exact S|].
  apply Forall_forall. intros x Hx. apply in_map_iff in Hx as [v [<- Hv]].
  unfold plain_codes in H. rewrite Forall_forall in H. now apply H.
Qed.

Lemma color_arg_plain (colorData : color_data) (isBackground : bool)
    (l : list jsval) :
  color_arg colorData isBackground = Normal l -> plain_codes l.
Proof.
  unfold color_arg. intros H.
  destruct (getColorCode colorData) as [[textCode options]|e]; [|discriminate H].
  cbn [bind] in H.
  destruct (getColor textCode _) as [colorCode|e] eqn:G; [|discriminate H].
  cbn [bind] in H.
  destruct (non_empty colorCode); inversion H; [|constructor].
  constructor; [|constructor]. simpl.
  destruct (getColor_shape _ _ _ G) as [->|[n [_ ->]]]; [reflexivity|].
  rewrite remove_first_prefix, strip_final_m_postfix.
  apply dollar_free_join_nums.
Qed.

Lemma forEach_push_style_plain (names : list string) :
  forall args ends args' ends',
    plain_codes args -> plain_codes ends ->
    forEach push_style names (args, ends) = Normal (args', ends') ->
    plain_codes args' /\ plain_codes ends'.
Proof.
  unfold plain_codes.
  induction names as [|n names IH]; intros args ends args' ends' Pa Pe H.
  - inversion H. now subst.
  - rewrite forEach_cons in H. unfold push_style at 1 in H.
    destruct (STYLES_get n); cbn [bind] in H; [| |discriminate H].
    + apply (IH _ _ _ _) in H; [exact H| |];
        (apply Forall_app; split; [assumption|]);
        repeat constructor; apply dollar_free_toString.
    + apply (IH _ _ _ _) in H; [exact H| |];
        (apply Forall_app; split; [assumption|]); repeat constructor.
Qed.

Lemma prepareObject_plain (data : style_data) (args ends : list jsval) :
  prepareObject data = Normal (args, ends) ->
  plain_codes args /\ plain_codes ends.
Proof.
  unfold prepareObject. intros H.
  destruct (match color data with Some _ => _ | None => _ end) as [a1|e] eqn:C;
    [|discriminate H].
  cbn [bind] in H.
  destruct (match background data with Some _ => _ | None => _ end) as [a2|e] eqn:B;
    [|discriminate H].
  cbn [bind] in H.
  assert (P1 : plain_codes a1).
  { destruct (color data); [now apply color_arg_plain in C|].
    inversion C. constructor. }
  assert (P2 : plain_codes a2).
  { destruct (background data); [now apply color_arg_plain in B|].
    inversion B. constructor. }
  assert (P : plain_codes (a1 ++ a2)) by (apply Forall_app; now split).
  destruct (style data).
  - eapply forEach_push_style_plain; [exact P | constructor | exact H].
  - inversion H. subst. split; [exact P | constructor].
Qed.

Lemma replaceAll_go_before (pat rep : string) :
  dollar_free rep ->
  forall s k b1 b2,
    Str.replaceAll_go pat rep k b1 s = Str.replaceAll_go pat rep k b2 s.
Proof.
  intros D. induction s as [|c s IH]; intros k b1 b2; [reflexivity|].
  cbn [Str.replaceAll_go]. destruct k as [|k]; [|apply IH].
  destruct (String.prefix pat (String c s)).
  - rewrite !(getSubstitution_inert _ _ _ _ D). f_equal. apply IH.
  - f_equal. apply IH.
Qed.

Lemma replaceAll_go_skip (pat rep : string) :
  forall x before s,
    Str.replaceAll_go pat rep (String.length x) before (x ++ s)
    = Str.replaceAll_go pat rep O (before ++ x) s.
Proof.
  induction x as [|c x IH]; intros before s.
  - now rewrite append_nil_r.
  - simpl. rewrite IH. unfold Str.snoc. now rewrite append_assoc.
Qed.

(** An occurrence at the start is replaced, and the search goes on after
    it. *)
Lemma replaceAll_head (x : ascii) (p rep s : string) :
  dollar_free rep ->
  Str.replaceAll (String x p ++ s) (String x p) rep
  = rep ++ Str.replaceAll s (String x p) rep.
Proof.
  intros D. unfold Str.replaceAll. simpl append. cbn [Str.replaceAll_go].
  assert (P : String.prefix (String x p) (String x (p ++ s)) = true).
  { apply prefix_spec. now exists s. }
  rewrite P, (getSubstitution_inert _ _ _ _ D).
  replace (String.length (String x p) - 1)%nat with (String.length p)
    by (simpl; lia).
  rewrite replaceAll_go_skip.
  f_equal. now apply replaceAll_go_before.
Qed.

(** A piece without the first character of the target is passed over. *)
Lemma replaceAll_piece (x : ascii) (p rep : string) :
  dollar_free rep ->
  forall piece s,
    without_char x piece ->
    Str.replaceAll (piece ++ s) (String x p) rep
    = piece ++ Str.replaceAll s (String x p) rep.
Proof.
  intros D. unfold without_char.
  induction piece as [|c piece IH]; intros s W; [reflexivity|].
  simpl in W. apply andb_true_iff in W as [Wc W].
  apply negb_true_iff in Wc.
  unfold Str.replaceAll. simpl append. cbn [Str.replaceAll_go].
  assert (P : String.prefix (String x p) (String c (piece ++ s)) = false).
  { simpl. destruct (ascii_dec x c) as [->|]; [|reflexivity].
    now rewrite Ascii.eqb_refl in Wc. }
  rewrite P. f_equal.
  rewrite (replaceAll_go_before _ _ D _ _ _ EmptyString).
  now apply IH.
Qed.

Lemma replaceAll_fill (x : ascii) (p rep : string) (pieces : list string)
    (last : string) :
  dollar_free rep ->
  Forall (without_char x) (last :: pieces) ->
  Str.replaceAll (fill pieces (String x p) last) (String x p) rep
  = fill pieces rep last.
Proof.
  intros D W. inversion W as [|? ? Wl Wp]. subst. clear W. unfold fill.
  induction Wp as [|piece pieces Hp Hps IH].
  - simpl. rewrite <- (append_nil_r last) at 1.
    rewrite (replaceAll_piece x p rep D last EmptyString Wl).
    apply append_nil_r.
  - cbn [map interleave]. rewrite (replaceAll_piece x p rep D piece _ Hp).
    rewrite replaceAll_head by exact D. now rewrite IH.
Qed.

(** X12. With one entry in [currents] and no global style, every
    occurrence of the target is wrapped: for a text made of pieces that do
    not contain the first character of the target, with the target after
    each piece but the last, the output is the same pieces with, in place
    of each target, the on-sequence of the entry, the target and the end of
    the span, and the reset at the end.  The target has no [$] and the text
    no [|]. *)
Theorem every_occurrence_wrapped (pieces : list string) (last : string)
    (x : ascii) (rest : string) (current : current_entry)
    (args ends : list jsval) :
  cur_target current = Some (String x rest) ->
  dollar_free (String x rest) ->
  Forall (without_char x) (last :: pieces) ->
  ~ occurs_in "|" (fill pieces (String x rest) last) ->
  prepareObject (cur_style current) = Normal (args, ends) ->
  prepareCustomLog (fill pieces (String x rest) last)
    (options_with_current current)
  = Normal (fill pieces
              (prefix ++ span_params args [] ++ postfix ++ String x rest
               ++ span_end current ends)
              last
            ++ reset).
Proof.
  intros T D W N P.
  unfold prepareCustomLog.
  assert (E : delegates (fill pieces (String x rest) last)
                (options_with_current current) = false).
  { unfold delegates, options_with_current. cbn [separators orb].
    now apply includes_false. }
  rewrite E. unfold structured, options_with_current.
  cbn [all currents notes bind as_array forEach]. unfold current_step.
  cbn [textContent]. rewrite T, P. cbn [bind textContent].
  destruct (prepareObject_plain _ _ _ P) as [Pa Pe].
  assert (R : dollar_free
                (prefix ++ span_params args [] ++ postfix ++ String x rest
                 ++ span_end current ends)).
  { repeat apply dollar_free_append; try reflexivity; try exact D.
    - unfold span_params. apply dollar_free_concat; [reflexivity|].
      constructor; [|constructor]. now apply dollar_free_join_vals.
    - unfold span_end.
      destruct (_ || _)%bool; [reflexivity|].
      repeat apply dollar_free_append; try reflexivity.
      now apply dollar_free_join_vals. }
  assert (F : (if (has_property (color (cur_style current))
                   || has_property (background (cur_style current)))%bool
               then reset ++ EmptyString
               else prefix ++ join_vals ";" ends ++ postfix ++ EmptyString)
              = span_end current ends).
  { unfold span_end. destruct (_ || _)%bool; [reflexivity|].
    now rewrite append_nil_r. }
  rewrite F, (replaceAll_fill x rest _ pieces last R W). reflexivity.
Qed.

Lemma every_occurrence_wrapped_witness :
  prepareCustomLog "aa"
    (options_with_current
       {| cur_target := Some "a"; cur_style := color_only "red" |})
  = Normal (String ESC "[31ma" ++ reset ++ String ESC "[31ma" ++ reset ++ reset).
Proof.
  apply (every_occurrence_wrapped [""; ""] "" "a" ""
           {| cur_target := Some "a"; cur_style := color_only "red" |}
           [VStr "31"] []).
  - reflexivity.
  - reflexivity.
  - repeat constructor.
  - rewrite <- includes_spec. vm_compute. discriminate.
  - reflexivity.
Defined.

(** * Properties of the logger *)

(** ** The counters *)

Lemma assoc_Map_set_same (k : string) (v : Z) (m : list (string * Z)) :
  assoc k (Logger.Map_set k v m) = Some v.
Proof.
  induction m as [|[k' v'] m IH]; simpl.
  - now rewrite String.eqb_refl.
  - destruct (String.eqb k' k) eqn:E; simpl.
    + now rewrite String.eqb_refl.
    + now rewrite E.
Qed.

Lemma assoc_Map_set_other (k k' : string) (v : Z) (m : list (string * Z)) :
  k' <> k -> assoc k' (Logger.Map_set k v m) = assoc k' m.
Proof.
  intros N. induction m as [|[k0 v0] m IH]; simpl.
  - apply String.eqb_neq in N. now rewrite String.eqb_sym, N.
  - destruct (String.eqb k0 k) eqn:E; simpl.
    + apply String.eqb_eq in E. subst k0.
      apply String.eqb_neq in N. now rewrite !(String.eqb_sym k), N.
    + now rewrite IH.
Qed.

Lemma assoc_absent (k : string) (m : list (string * Z)) :
  ~ In k (map fst m) -> assoc k m = None.
Proof.
  induction m as [|[k' v'] m IH]; intros N; simpl; [reflexivity|].
  destruct (String.eqb_spec k' k) as [->|_].
  - exfalso. apply N. now left.
  - apply IH. intros H. apply N. now right.
Qed.

Lemma assoc_Map_delete_same (k : string) (m : list (string * Z)) :
  NoDup (map fst m) -> assoc k (Logger.Map_delete k m) = None.
Proof.
  induction m as [|[k' v'] m IH]; intros D; simpl; [reflexivity|].
  inversion D as [|? ? Nk Dm]. subst.
  destruct (String.eqb_spec k' k) as [->|N].
  - now apply assoc_absent.
  - simpl. destruct (String.eqb_spec k' k) as [E|_]; [contradiction | now apply IH].
Qed.

Lemma assoc_Map_delete_other (k k' : string) (m : list (string * Z)) :
  k' <> k -> assoc k' (Logger.Map_delete k m) = assoc k' m.
Proof.
  intros N. induction m as [|[k0 v0] m IH]; simpl; [reflexivity|].
  destruct (String.eqb_spec k0 k) as [->|N0]; simpl.
  - destruct (String.eqb_spec k k') as [E|_]; [now symmetry in E | reflexivity].
  - now rewrite IH.
Qed.

Lemma Map_set_keys (k : string) (v : Z) (m : list (string * Z)) (x : string) :
  In x (map fst (Logger.Map_set k v m)) -> x = k \/ In x (map fst m).
Proof.
  induction m as [|[k' v'] m IH]; simpl.
  - intros [H|[]]. now left.
  - destruct (String.eqb_spec k' k) as [->|N]; simpl.
    + intros [H|H]; auto.
    + intros [H|H]; [auto|]. destruct (IH H); auto.
Qed.

Lemma Map_delete_keys (k : string) (m : list (string * Z)) (x : string) :
  In x (map fst (Logger.Map_delete k m)) -> In x (map fst m).
Proof.
  induction m as [|[k' v'] m IH]; simpl; [auto|].
  destruct (String.eqb_spec k' k) as [->|N]; simpl; [auto|].
  intros [H|H]; auto.
Qed.

Lemma Map_set_kept (k : string) (v : Z) (m : list (string * Z)) :
  1 <= v ->
  NoDup (map fst m) /\ Forall (fun entry => 1 <= snd entry) m ->
  NoDup (map fst (Logger.Map_set k v m))
  /\ Forall (fun entry => 1 <= snd entry) (Logger.Map_set k v m).
Proof.
  intros Hv. induction m as [|[k' v'] m IH]; intros [D F]; simpl.
  - split; repeat constructor; auto.
  - inversion D as [|? ? Nk Dm]. inversion F as [|? ? Fv Fm]. subst.
    destruct (String.eqb_spec k' k) as [->|N]; simpl.
    + split; constructor; auto.
    + destruct (IH (conj Dm Fm)) as [D' F'].
      split; constructor; auto.
      intros H. destruct (Map_set_keys _ _ _ _ H); [congruence | contradiction].
Qed.

Lemma Map_delete_kept (k : string) (m : list (string * Z)) :
  NoDup (map fst m) /\ Forall (fun entry => 1 <= snd entry) m ->
  NoDup (map fst (Logger.Map_delete k m))
  /\ Forall (fun entry => 1 <= snd entry) (Logger.Map_delete k m).
Proof.
  induction m as [|[k' v'] m IH]; intros [D F]; simpl; [auto|].
  inversion D as [|? ? Nk Dm]. inversion F as [|? ? Fv Fm]. subst.
  destruct (String.eqb_spec k' k) as [->|N]; simpl; [auto|].
  destruct (IH (conj Dm Fm)) as [D' F'].
  split; constructor; auto.
  intros H. apply Nk. now apply Map_delete_keys in H.
Qed.

Lemma assoc_kept (k : string) (m : list (string * Z)) (c : Z) :
  Forall (fun entry => 1 <= snd entry) m -> assoc k m = Some c -> 1 <= c.
Proof.
  induction 1 as [|[k' v'] m Hv _ IH]; simpl; [discriminate|].
  destruct (String.eqb k' k); [intros H; inversion H; now subst | exact IH].
Qed.

Lemma count_of_nonneg (st : Logger.logger) (type : Logger.channel) (t : string) :
  well_kept st -> 0 <= count_of st type t.
Proof.
  intros [_ F]. unfold count_of.
  destruct (assoc _ _) as [c|] eqn:E; [|lia].
  apply (assoc_kept _ _ _ F) in E. lia.
Qed.

(** ** One call of [checkIfRepeat] *)

Lemma same_text_spec (last : option string) (t : string) :
  Logger.same_text last t = true <-> last = Some t.
Proof.
  destruct last as [l|]; simpl; [|split; discriminate].
  rewrite String.eqb_eq. split; [now intros -> | now intros [= ->]].
Qed.

Lemma colorizeByText_dim (t : string) :
  colorizeByText t (Some "dim") = Normal (t ++ reset).
Proof.
  reflexivity.
Qed.

(** A repeat: the count grows by one, nothing else changes and nothing is
    written. *)
Lemma checkIfRepeat_repeat (w1 w2 : string) (type : Logger.channel)
    (t : string) (now : Z) (st : Logger.logger) :
  suppressing st ->
  within_window st type t now ->
  Logger.checkIfRepeat w1 w2 type t now st
  = {| Logger.state :=
         {| Logger.lastLogs := Logger.lastLogs st;
            Logger.suppressionConfig := Logger.suppressionConfig st;
            Logger.repeatCounters :=
              Logger.Map_set (Logger.counter_key type t) (count_of st type t + 1)
                (Logger.repeatCounters st) |};
       Logger.printed := [];
       Logger.outcome := Normal (true, count_of st type t + 1) |}.
Proof.
  unfold suppressing, within_window. intros E [T W].
  unfold Logger.checkIfRepeat. rewrite E. cbn [negb].
  apply same_text_spec in T. apply Z.ltb_lt in W. rewrite T, W.
  reflexivity.
Qed.

(** No repeat: the text and the time are recorded, the counter of the text
    goes, and the notice of the repeats counted is written. *)
Lemma checkIfRepeat_fresh (w1 w2 : string) (type : Logger.channel)
    (t : string) (now : Z) (st : Logger.logger) :
  suppressing st ->
  ~ within_window st type t now ->
  Logger.checkIfRepeat w1 w2 type t now st
  = {| Logger.state :=
         {| Logger.lastLogs :=
              Logger.lastLogs_set (Logger.lastLogs st) type
                {| Logger.text := Some t; Logger.timestamp := now |};
            Logger.suppressionConfig := Logger.suppressionConfig st;
            Logger.repeatCounters :=
              Logger.Map_delete (Logger.counter_key type t)
                (Logger.repeatCounters st) |};
       Logger.printed :=
         if ((0 <? count_of st type t)
             && Logger.showCounter (Logger.suppressionConfig st))%bool
         then [(Logger.console_log,
                Logger.repeated_notice w1 w2 (count_of st type t) ++ reset)]
         else [];
       Logger.outcome := Normal (false, 0) |}.
Proof.
  unfold suppressing, within_window. intros E N.
  unfold Logger.checkIfRepeat. rewrite E. cbn [negb].
  destruct (Logger.same_text _ t && _)%bool eqn:B.
  - exfalso. apply N. apply andb_true_iff in B as [T W].
    split; [now apply same_text_spec | now apply Z.ltb_lt].
  - unfold count_of.
    destruct (assoc (Logger.counter_key type t) (Logger.repeatCounters st))
      as [c|] eqn:A.
    + rewrite colorizeByText_dim.
      destruct ((0 <? c) && _)%bool; reflexivity.
    + simpl. f_equal. f_equal.
      induction (Logger.repeatCounters st) as [|[k v] m IH]; [reflexivity|].
      simpl in A |- *. destruct (String.eqb k _); [discriminate A|].
      f_equal. now apply IH.
Qed.

(** ** Logging without suppression *)

(** X13. While suppression is off, as it is when the module is loaded, each
    of the five level methods writes exactly one line and changes nothing:
    [debug], [warn] and [error] write the text in blue, yellow and red (34,
    33, 31) followed by the reset, [info] and [print] without a colour
    write the text as it is, with no escape sequence at all. *)
Theorem levels_without_suppression (w1 w2 t : string) (force : bool) (now : Z)
    (st : Logger.logger) :
  Logger.enabled (Logger.suppressionConfig st) = false ->
  let written (method : Logger.console) (line : string) : Logger.run unit :=
    {| Logger.state := st; Logger.printed := [(method, line)];
       Logger.outcome := Normal tt |} in
  Logger.LOG_debug w1 w2 t Logger.Missing force now st
  = written Logger.console_debug (sgr 34 ++ t ++ reset)
  /\ Logger.LOG_warn w1 w2 t Logger.Missing force now st
     = written Logger.console_warn (sgr 33 ++ t ++ reset)
  /\ Logger.LOG_error w1 w2 t Logger.Missing force now st
     = written Logger.console_error (sgr 31 ++ t ++ reset)
  /\ Logger.LOG_info w1 w2 t Logger.Missing force now st
     = written Logger.console_info t
  /\ Logger.LOG_print w1 w2 t Logger.Missing force now st
     = written Logger.console_log t.
Proof.
  intros E written.
  unfold Logger.LOG_debug, Logger.LOG_warn, Logger.LOG_error, Logger.LOG_info,
    Logger.LOG_print, Logger.colored, Logger.checkIfRepeat, written.
  cbn [Logger.settle]. rewrite E.
  cbn [negb Logger.outcome Logger.state Logger.printed andb].
  rewrite !andb_false_r. repeat split; reflexivity.
Qed.

Lemma levels_without_suppression_witness :
  Logger.LOG_debug "w" "w" "hello" Logger.Missing false 5 Logger.initial
  = {| Logger.state := Logger.initial;
       Logger.printed := [(Logger.console_debug, sgr 34 ++ "hello" ++ reset)];
       Logger.outcome := Normal tt |}.
Proof.
  apply (proj1 (levels_without_suppression "w" "w" "hello" false 5 Logger.initial
                  eq_refl)).
Defined.

(** ** Repeats inside the window *)

Lemma count_of_after_set (st : Logger.logger) (type : Logger.channel)
    (t : string) (v : Z) :
  count_of
    {| Logger.lastLogs := Logger.lastLogs st;
       Logger.suppressionConfig := Logger.suppressionConfig st;
       Logger.repeatCounters :=
         Logger.Map_set (Logger.counter_key type t) v (Logger.repeatCounters st) |}
    type t = v.
Proof.
  unfold count_of. cbn [Logger.repeatCounters]. now rewrite assoc_Map_set_same.
Qed.

(** X14. While suppression is on, calls of [checkIfRepeat] with the text
    last logged on the channel, each less than the timeout after the time
    of that log, are repeats numbered one after the other, however they are
    spaced: a repeat does not move the start of the window. *)
Theorem burst_is_counted (w1 w2 : string) (type : Logger.channel) (t : string)
    (t0 : Z) (times : list Z) (st : Logger.logger) :
  suppressing st ->
  Logger.lastLogs_get (Logger.lastLogs st) type
  = {| Logger.text := Some t; Logger.timestamp := t0 |} ->
  Forall (fun now => now - t0 < Logger.timeout (Logger.suppressionConfig st))
    times ->
  repeats w1 w2 type t times st
  = map (fun k => Normal (true, count_of st type t + Z.of_nat k))
      (seq 1 (List.length times)).
Proof.
  revert st. induction times as [|now times IH]; intros st E L F; [reflexivity|].
  inversion F as [|? ? Fn Ft]. subst.
  cbn [repeats List.length seq map].
  rewrite checkIfRepeat_repeat; [|exact E|].
  - cbn [Logger.outcome Logger.state]. f_equal.
    rewrite IH; [|exact E|exact L|exact Ft].
    rewrite count_of_after_set, <- (seq_shift _ 1), map_map.
    apply map_ext. intros k. do 2 f_equal. lia.
  - unfold within_window. rewrite L. now split.
Qed.

Lemma burst_is_counted_witness :
  let st := Logger.state
              (Logger.LOG_debug "w" "w" "hello" Logger.Missing false 100
                 (Logger.LOG_enableSuppression Logger.initial)) in
  repeats "w" "w" Logger.ch_debug "hello" [600; 1099; 101] st
  = [Normal (true, 1); Normal (true, 2); Normal (true, 3)].
Proof.
  intros st.
  apply (burst_is_counted "w" "w" Logger.ch_debug "hello" 100 [600; 1099; 101] st).
  - reflexivity.
  - reflexivity.
  - repeat constructor.
Defined.

(** ** The end of the window *)

Lemma lastLogs_get_set_same (l : Logger.lastLogs_t) (type : Logger.channel)
    (v : Logger.last_log) :
  Logger.lastLogs_get (Logger.lastLogs_set l type v) type = v.
Proof.
  now destruct type.
Qed.

Lemma lastLogs_get_set_other (l : Logger.lastLogs_t) (type type' : Logger.channel)
    (v : Logger.last_log) :
  type' <> type ->
  Logger.lastLogs_get (Logger.lastLogs_set l type v) type'
  = Logger.lastLogs_get l type'.
Proof.
  destruct type, type'; intros N; try reflexivity; contradiction.
Qed.

(** X15. While suppression is on, a call of [checkIfRepeat] with another
    text than the last one of the channel, or at least the timeout after
    it, is no repeat: it records the text and the time, forgets the count of
    the text, and writes the notice of the repeats counted exactly when that
    count is positive and [showCounter] is set; the notice is the bare text
    and a reset. *)
Theorem window_expiry (w1 w2 : string) (type : Logger.channel) (t : string)
    (now : Z) (st : Logger.logger) :
  suppressing st ->
  well_kept st ->
  ~ within_window st type t now ->
  let r := Logger.checkIfRepeat w1 w2 type t now st in
  Logger.outcome r = Normal (false, 0)
  /\ Logger.lastLogs_get (Logger.lastLogs (Logger.state r)) type
     = {| Logger.text := Some t; Logger.timestamp := now |}
  /\ assoc (Logger.counter_key type t) (Logger.repeatCounters (Logger.state r))
     = None
  /\ Logger.printed r
     = if ((0 <? count_of st type t)
           && Logger.showCounter (Logger.suppressionConfig st))%bool
       then [(Logger.console_log,
              Logger.repeated_notice w1 w2 (count_of st type t) ++ reset)]
       else [].
Proof.
  intros E [D _] N r. unfold r. rewrite (checkIfRepeat_fresh _ _ _ _ _ _ E N).
  cbn [Logger.outcome Logger.state Logger.printed Logger.lastLogs
         Logger.repeatCounters].
  repeat split.
  - apply lastLogs_get_set_same.
  - now apply assoc_Map_delete_same.
Qed.

Lemma window_expiry_witness :
  let st := {| Logger.lastLogs :=
                 Logger.lastLogs_set Logger.empty_history Logger.ch_warn
                   {| Logger.text := Some "disk full"; Logger.timestamp := 100 |};
               Logger.suppressionConfig :=
                 {| Logger.enabled := true; Logger.timeout := 1000;
                    Logger.showCounter := true |};
               Logger.repeatCounters := [("warn:disk full", 4)] |} in
  let r := Logger.checkIfRepeat "repeated" "times" Logger.ch_warn "disk full" 1100 st in
  Logger.outcome r = Normal (false, 0)
  /\ Logger.lastLogs_get (Logger.lastLogs (Logger.state r)) Logger.ch_warn
     = {| Logger.text := Some "disk full"; Logger.timestamp := 1100 |}
  /\ assoc "warn:disk full" (Logger.repeatCounters (Logger.state r)) = None
  /\ Logger.printed r = [(Logger.console_log, "[repeated 4 times]" ++ reset)].
Proof.
  intros st.
  apply (window_expiry "repeated" "times" Logger.ch_warn "disk full" 1100 st).
  - reflexivity.
  - split; repeat constructor; simpl; [tauto | lia].
  - intros [_ W]. simpl in W. lia.
Defined.

(** ** What a repeat writes *)

Lemma suppressing_after_repeat (st : Logger.logger) (m : list (string * Z)) :
  suppressing st ->
  Logger.enabled
    (Logger.suppressionConfig
       {| Logger.lastLogs := Logger.lastLogs st;
          Logger.suppressionConfig := Logger.suppressionConfig st;
          Logger.repeatCounters := m |}) = true.
Proof.
  intros E. exact E.
Qed.

(** X16. While suppression is on, a repeat inside the window that is not
    forced writes nothing and returns, for each of the six methods and
    whatever the colour or the options are: a colour or a text that would
    make the formatting throw is never looked at. *)
Theorem suppressed_repeat_is_silent (w1 w2 t : string) (now : Z)
    (st : Logger.logger) (color : Logger.color_param)
    (options : option log_options) :
  suppressing st ->
  color <> Logger.Flag true ->
  let silent (r : Logger.run unit) : Prop :=
    Logger.printed r = [] /\ Logger.outcome r = Normal tt in
  (within_window st Logger.ch_debug t now ->
   silent (Logger.LOG_debug w1 w2 t color false now st))
  /\ (within_window st Logger.ch_info t now ->
      silent (Logger.LOG_info w1 w2 t color false now st))
  /\ (within_window st Logger.ch_warn t now ->
      silent (Logger.LOG_warn w1 w2 t color false now st))
  /\ (within_window st Logger.ch_error t now ->
      silent (Logger.LOG_error w1 w2 t color false now st))
  /\ (within_window st Logger.ch_print t now ->
      silent (Logger.LOG_print w1 w2 t color false now st))
  /\ (within_window st Logger.ch_custom t now ->
      silent (Logger.LOG_custom w1 w2 t options false now st)).
Proof.
  intros E C silent.
  assert (S : forall d, exists c, Logger.settle d color false = (c, false)).
  { intros d. destruct color as [| |[]|s]; simpl; eauto. contradiction. }
  unfold silent, Logger.LOG_debug, Logger.LOG_info, Logger.LOG_warn,
    Logger.LOG_error, Logger.LOG_print, Logger.LOG_custom, Logger.colored.
  repeat match goal with |- _ /\ _ => split end; intros W;
    try (match goal with
         | |- context [Logger.settle ?d color false] =>
             destruct (S d) as [c ->]
         end);
    rewrite (checkIfRepeat_repeat _ _ _ _ _ _ E W);
    cbn [Logger.outcome Logger.state Logger.printed negb andb];
    rewrite (suppressing_after_repeat st _ E); split; reflexivity.
Qed.

Lemma suppressed_repeat_is_silent_witness :
  let st := Logger.state
              (Logger.LOG_print "w" "w" "hello" (Logger.Name "#ffff") false 100
                 (Logger.LOG_enableSuppression Logger.initial)) in
  Logger.printed (Logger.LOG_print "w" "w" "hello" (Logger.Name "#ffff") false 200 st)
  = []
  /\ Logger.outcome (Logger.LOG_print "w" "w" "hello" (Logger.Name "#ffff") false 200 st)
     = Normal tt.
Proof.
  intros st.
  apply (proj1 (proj2 (proj2 (proj2 (proj2
           (suppressed_repeat_is_silent "w" "w" "hello" 200 st
              (Logger.Name "#ffff") None eq_refl ltac:(discriminate))))))).
  split; [reflexivity | simpl; lia].
Defined.

(** X17. A forced repeat of [LOG.debug], called as [LOG.debug(text, true)]
    while suppression and [showCounter] are on, writes the text in blue
    followed by a space and the mark [[xN]] with the reset, where N is the
    number of repeats counted so far plus two: the first repeat is marked
    with 2. *)
Theorem forced_repeat_is_marked (w1 w2 t : string) (force : bool) (now : Z)
    (st : Logger.logger) :
  suppressing st ->
  Logger.showCounter (Logger.suppressionConfig st) = true ->
  well_kept st ->
  within_window st Logger.ch_debug t now ->
  let r := Logger.LOG_debug w1 w2 t (Logger.Flag true) force now st in
  Logger.printed r
  = [(Logger.console_debug,
      sgr 34 ++ t ++ reset ++ " [" ++ Logger.times_sign
      ++ Num.toString (count_of st Logger.ch_debug t + 2) ++ "]" ++ reset)]
  /\ Logger.outcome r = Normal tt
  /\ count_of (Logger.state r) Logger.ch_debug t
     = count_of st Logger.ch_debug t + 1.
Proof.
  intros E C K W r. unfold r, Logger.LOG_debug, Logger.colored.
  cbn [Logger.settle].
  rewrite (checkIfRepeat_repeat _ _ _ _ _ _ E W).
  cbn [Logger.outcome Logger.state Logger.printed negb andb
         Logger.suppressionConfig].
  rewrite C.
  assert (P : (0 <? count_of st Logger.ch_debug t + 1) = true).
  { apply Z.ltb_lt. pose proof (count_of_nonneg st Logger.ch_debug t K). lia. }
  rewrite P. cbn [andb]. rewrite colorizeByText_dim.
  cbn [bind]. unfold Logger.write.
  change (colorizeByText t (Some "blue")) with (Normal (sgr 34 ++ t ++ reset)).
  cbn [bind Logger.printed Logger.outcome Logger.state app].
  repeat split.
  - unfold Logger.counter_mark.
    replace (count_of st Logger.ch_debug t + 1 + 1)
      with (count_of st Logger.ch_debug t + 2) by lia.
    do 2 f_equal. unfold sgr. rewrite !append_assoc. reflexivity.
  - apply count_of_after_set.
Qed.

Lemma forced_repeat_is_marked_witness :
  let st := Logger.state
              (Logger.LOG_debug "w" "w" "hello" Logger.Missing false 100
                 (Logger.LOG_enableSuppression Logger.initial)) in
  let r := Logger.LOG_debug "w" "w" "hello" (Logger.Flag true) false 300 st in
  Logger.printed r
  = [(Logger.console_debug,
      sgr 34 ++ "hello" ++ reset ++ " [" ++ Logger.times_sign ++ "2]" ++ reset)]
  /\ Logger.outcome r = Normal tt
  /\ count_of (Logger.state r) Logger.ch_debug "hello" = 1.
Proof.
  intros st.
  apply (forced_repeat_is_marked "w" "w" "hello" false 300 st).
  - reflexivity.
  - reflexivity.
  - split; constructor.
  - split; [reflexivity | simpl; lia].
Defined.

(** ** Configuration *)


(** ** Channels and texts do not interfere *)

Lemma counter_key_injective (type type' : Logger.channel) (t t' : string) :
  Logger.counter_key type t = Logger.counter_key type' t' ->
  type = type' /\ t = t'.
Proof.
  destruct type, type'; unfold Logger.counter_key; simpl; intros H;
    try discriminate H; inversion H; auto.
Qed.

Lemma checkIfRepeat_cases (w1 w2 : string) (type : Logger.channel) (t : string)
    (now : Z) (st : Logger.logger) :
  let r := Logger.checkIfRepeat w1 w2 type t now st in
  Logger.suppressionConfig (Logger.state r) = Logger.suppressionConfig st
  /\ (Logger.lastLogs (Logger.state r) = Logger.lastLogs st
      \/ Logger.lastLogs (Logger.state r)
         = Logger.lastLogs_set (Logger.lastLogs st) type
             {| Logger.text := Some t; Logger.timestamp := now |})
  /\ (Logger.repeatCounters (Logger.state r) = Logger.repeatCounters st
      \/ Logger.repeatCounters (Logger.state r)
         = Logger.Map_set (Logger.counter_key type t) (count_of st type t + 1)
             (Logger.repeatCounters st)
      \/ Logger.repeatCounters (Logger.state r)
         = Logger.Map_delete (Logger.counter_key type t)
             (Logger.repeatCounters st)).
Proof.
  intros r. unfold r, Logger.checkIfRepeat, count_of.
  destruct (negb _); [simpl; auto|].
  destruct (_ && _)%bool; [simpl; auto|].
  destruct (assoc _ _) as [c|]; [|simpl; auto].
  destruct (_ && _)%bool; [|simpl; auto].
  destruct (colorizeByText _ _); simpl; auto.
Qed.

(** X19. A call of [checkIfRepeat] for a text on a channel leaves the last
    log of every other channel and the count of every other pair of channel
    and text as they were: the key [type:text] of the counters tells any two
    pairs apart. *)
Theorem channels_do_not_interfere (w1 w2 : string) (type type' : Logger.channel)
    (t t' : string) (now : Z) (st : Logger.logger) :
  let r := Logger.checkIfRepeat w1 w2 type t now st in
  (type' <> type ->
   Logger.lastLogs_get (Logger.lastLogs (Logger.state r)) type'
   = Logger.lastLogs_get (Logger.lastLogs st) type')
  /\ (type' <> type \/ t' <> t ->
      count_of (Logger.state r) type' t' = count_of st type' t').
Proof.
  intros r.
  destruct (checkIfRepeat_cases w1 w2 type t now st) as [_ [L C]].
  fold r in L, C. split.
  - intros N. destruct L as [-> | ->]; [reflexivity|].
    now apply lastLogs_get_set_other.
  - intros N.
    assert (K : Logger.counter_key type' t' <> Logger.counter_key type t).
    { intros H. apply counter_key_injective in H as [H1 H2].
      destruct N; contradiction. }
    unfold count_of. destruct C as [-> | [-> | ->]]; [reflexivity| |].
    + now rewrite assoc_Map_set_other.
    + now rewrite assoc_Map_delete_other.
Qed.

Lemma channels_do_not_interfere_witness :
  let st := Logger.state
              (Logger.LOG_warn "w" "w" "hello" Logger.Missing false 100
                 (Logger.LOG_enableSuppression Logger.initial)) in
  let r := Logger.checkIfRepeat "w" "w" Logger.ch_debug "hello" 150 st in
  Logger.lastLogs_get (Logger.lastLogs (Logger.state r)) Logger.ch_warn
  = Logger.lastLogs_get (Logger.lastLogs st) Logger.ch_warn
  /\ count_of (Logger.state r) Logger.ch_warn "hello"
     = count_of st Logger.ch_warn "hello".
Proof.
  intros st. split.
  - apply (proj1 (channels_do_not_interfere "w" "w" Logger.ch_debug
                    Logger.ch_warn "hello" "hello" 150 st)).
    discriminate.
  - apply (proj2 (channels_do_not_interfere "w" "w" Logger.ch_debug
                    Logger.ch_warn "hello" "hello" 150 st)).
    left. discriminate.
Defined.

(** ** Reset *)

(** X20. After [LOG.resetSuppression] the next call of [checkIfRepeat], for
    any text on any channel at any time, is no repeat and writes no notice,
    whatever was logged and counted before. *)
Theorem reset_forgets (w1 w2 : string) (type : Logger.channel) (t : string)
    (now : Z) (st : Logger.logger) :
  let r := Logger.checkIfRepeat w1 w2 type t now (Logger.LOG_resetSuppression st) in
  Logger.outcome r = Normal (false, 0) /\ Logger.printed r = [].
Proof.
  unfold Logger.checkIfRepeat, Logger.LOG_resetSuppression. simpl.
  destruct (negb _); [auto|]. destruct type; simpl; auto.
Qed.

(** The history alone can be reset by [configureLogSuppression]; the
    counters stay, and the notice of an old count is written later. *)
Example history_reset_keeps_counters :
  let st := {| Logger.lastLogs := Logger.empty_history;
               Logger.suppressionConfig :=
                 {| Logger.enabled := true; Logger.timeout := 1000;
                    Logger.showCounter := true |};
               Logger.repeatCounters := [("debug:hello", 3)] |} in
  let st' := Logger.configureLogSuppression
               {| Logger.cfg_enabled := None; Logger.cfg_timeout := None;
                  Logger.cfg_showCounter := None;
                  Logger.cfg_resetHistory := true |} st in
  Logger.repeatCounters st' = [("debug:hello", 3)]
  /\ Logger.printed (Logger.checkIfRepeat "repeated" "times" Logger.ch_debug "hello" 5 st')
     = [(Logger.console_log, "[repeated 3 times]" ++ reset)].
Proof.
  split; reflexivity.
Qed.

(** ** What the counters keep *)

(** X21. The counters stay those of a [Map] with every count at least 1:
    this holds when the module is loaded and after every call of
    [checkIfRepeat], of [configureLogSuppression] and of
    [LOG.resetSuppression]; and the six logging methods change the state
    only through [checkIfRepeat].  So the test [oldCount > 0] before the
    notice never fails for a text that has a counter. *)
Theorem counters_well_kept (w1 w2 : string) (type : Logger.channel) (t : string)
    (now : Z) (config : Logger.config_t) (st : Logger.logger) :
  well_kept Logger.initial
  /\ (well_kept st ->
      well_kept (Logger.state (Logger.checkIfRepeat w1 w2 type t now st))
      /\ well_kept (Logger.configureLogSuppression config st)
      /\ well_kept (Logger.LOG_resetSuppression st))
  /\ (forall color force options,
        Logger.state (Logger.LOG_debug w1 w2 t color force now st)
        = Logger.state
            (Logger.checkIfRepeat w1 w2 Logger.ch_debug t now st)
        /\ Logger.state (Logger.LOG_info w1 w2 t color force now st)
           = Logger.state
               (Logger.checkIfRepeat w1 w2 Logger.ch_info t now st)
        /\ Logger.state (Logger.LOG_warn w1 w2 t color force now st)
           = Logger.state
               (Logger.checkIfRepeat w1 w2 Logger.ch_warn t now st)
        /\ Logger.state (Logger.LOG_error w1 w2 t color force now st)
           = Logger.state
               (Logger.checkIfRepeat w1 w2 Logger.ch_error t now st)
        /\ Logger.state (Logger.LOG_print w1 w2 t color force now st)
           = Logger.state
               (Logger.checkIfRepeat w1 w2 Logger.ch_print t now st)
        /\ Logger.state (Logger.LOG_custom w1 w2 t options force now st)
           = Logger.state
               (Logger.checkIfRepeat w1 w2 Logger.ch_custom t now st)).
Proof.
  split; [split; constructor|]. split.
  - intros K. split; [|split].
    + destruct (checkIfRepeat_cases w1 w2 type t now st) as [_ [_ C]].
      unfold well_kept.
      destruct C as [-> | [-> | ->]]; [exact K| |].
      * apply Map_set_kept; [|exact K].
        pose proof (count_of_nonneg st type t K). lia.
      * now apply Map_delete_kept.
    + exact K.
    + split; constructor.
  - intros color force options.
    assert (W : forall s b m l, Logger.state (Logger.write s b m l) = s).
    { intros s b m l. now destruct l. }
    unfold Logger.LOG_debug, Logger.LOG_info, Logger.LOG_warn, Logger.LOG_error,
      Logger.LOG_print, Logger.LOG_custom, Logger.colored.
    repeat split;
      try (match goal with
           | |- context [Logger.settle ?d color force] =>
               destruct (Logger.settle d color force) as [c f]
           end);
      match goal with
      | |- context [Logger.outcome ?r] =>
          destruct (Logger.outcome r) as [[isRepeat count]|e]
      end; try reflexivity;
      repeat match goal with
             | |- context [if ?b then _ else _] => destruct b
             end;
      rewrite ?W; reflexivity.
Qed.

Lemma counters_well_kept_witness :
  let st := Logger.state
              (Logger.LOG_debug "w" "w" "hello" Logger.Missing false 100
                 (Logger.LOG_enableSuppression Logger.initial)) in
  well_kept (Logger.state (Logger.checkIfRepeat "w" "w" Logger.ch_debug "hello" 150 st)).
Proof.
  intros st.
  apply (proj1 (proj2 (counters_well_kept "w" "w" Logger.ch_debug "hello" 150
                         {| Logger.cfg_enabled := None; Logger.cfg_timeout := None;
                            Logger.cfg_showCounter := None;
                            Logger.cfg_resetHistory := false |} st))).
  split; constructor.
Defined.

(** * Two more properties of the formatting functions *)

(** ** Index markers inside an extended colour *)

(** X22. Of the codes of an extended colour, [38;5;n] or [38;2;r;g;b] (48
    for a background), [halving] keeps the first number alone, as it reads
    the code text with [parseInt]: the index marker of a character inside
    such a colour carries 38 or 48 and not the colour. *)
Theorem index_marker_keeps_selector (t : string) (reg : reg_value) (b : bool)
    (mode : Z) (params : list Z) :
  styleCodes [VStr (join_nums ";" (selector b :: mode :: params))]
  = [Int (selector b)]
  /\ halving t reg [VStr (join_nums ";" (selector b :: mode :: params))]
     = halving t reg [VNum (selector b)].
Proof.
  assert (S : styleCodes [VStr (join_nums ";" (selector b :: mode :: params))]
              = [Int (selector b)]) by (destruct b; reflexivity).
  split; [exact S|].
  unfold halving. rewrite S. now destruct b.
Qed.

(** ** A text with a separator and no command *)

Lemma forEach_skipped {S A : Type} (f : S -> A -> completion S) (l : list A) :
  (forall st a, In a l -> f st a = Normal st) ->
  forall st, forEach f l st = Normal st.
Proof.
  induction l as [|a l IH]; intros H st; [reflexivity|].
  rewrite forEach_cons, (H st a (or_introl eq_refl)). cbn [bind].
  apply IH. intros st0 b Hb. apply H. now right.
Qed.

(** X23. A text that contains [|] and none of whose segments is a command
    is dropped whole by [prepareCustomLog] when no separators are
    configured: the result is the reset alone, whatever the options are. *)
Theorem text_without_command_is_dropped (t : string)
    (options : option log_options) :
  default_separators options ->
  occurs_in "|" t ->
  (forall i, In i (Str.split t "|") -> recognized "|" "." i = false) ->
  prepareCustomLog t options = Normal reset.
Proof.
  intros S O U. unfold prepareCustomLog.
  assert (D : delegates t options = true).
  { unfold delegates. apply orb_true_iff. right. now apply includes_spec. }
  rewrite D. unfold default_separators in S. rewrite S.
  unfold parseString. cbn [commandSeparator_of paramSeparator_of].
  rewrite forEach_skipped; [reflexivity|].
  intros st i Hi. apply command_step_unrecognized, U.
  now apply filter_In in Hi as [Hi _].
Qed.

Lemma text_without_command_is_dropped_witness :
  prepareCustomLog "load: 5 | 7" (only_all (color_only "green")) = Normal reset.
Proof.
  apply (text_without_command_is_dropped "load: 5 | 7"
           (only_all (color_only "green"))).
  - reflexivity.
  - now exists "load: 5 ", " 7".
  - intros i H. simpl in H.
    repeat (destruct H as [H|H]; [subst i; reflexivity|]). contradiction.
Defined.
